(** * SpoolBuddy backend: session tracking, liveness and broadcast hub

    A shallow embedding of [backend/usage_tracker.py] and of the
    module-level state machine of [backend/main.py], followed by the
    properties of the design specification that were checked on it.

    Conventions.
    - Python [dict]s are [gmap]s, the observer [set] is a [gset]; a value
      that may be [None] is an [option].
    - A function that mutates an object takes the old value and returns
      the new one together with the list of effects it performed, oldest
      first: the [logger] records that tell the outcome of a handler and
      the work handed to the asyncio loop.
    - Python floats, the readings of [time.time()] and the weight
      estimate, are IEEE-754 binary64 values: [spec_float] with
      [prec = 53] and [emax = 1024], with the operations of the standard
      library's specification of floating-point arithmetic. *)

From stdpp Require Import gmap strings list fin_maps fin_sets.
From Stdlib Require Import ZArith.
From Stdlib Require Import Floats.SpecFloat.

Local Open Scope string_scope.
Local Open Scope list_scope.
Local Open Scope Z_scope.

(* ===================================================================== *)
(** * models.PrinterState *)
(* ===================================================================== *)

(** Modelled from the spec: the declaration of [PrinterState] and of its
    AMS unit and tray records ([models.py]) is not among the sources.  The
    records below have the fields that [usage_tracker.py] reads, with the
    nullability that code tests for ([tray.remain is not None],
    [state.vt_tray and ...], [state.subtask_name or ...]). *)
Record AmsTray := {
  tray_id : Z;
  remain : option Z;
}.

(** [unit_id] is the attribute [id] of an AMS unit. *)
Record AmsUnit := {
  unit_id : Z;
  trays : list AmsTray;
}.

Record PrinterState := {
  gcode_state : option string;
  subtask_name : option string;
  print_progress : option Z;
  ams_units : list AmsUnit;
  vt_tray : option AmsTray;
  tray_now : option Z;
}.

(** Keys of the per-tray dictionaries: [(ams_id, tray_id)]. *)
Abbreviation TrayKey := (Z * Z)%type.
Abbreviation TrayMap := (gmap (Z * Z) Z).

(** The key under which the virtual tray is stored: [(255, 0)]. *)
Definition VT_KEY : TrayKey := (255, 0).

(* ===================================================================== *)
(** * Messages and effects *)
(* ===================================================================== *)

(** The [dict]s passed to [broadcast_message] in [main.py], by their
    ["type"] field. *)
Inductive Message :=
  | device_connected
  | device_disconnected
  | device_update_available (update_available : bool)
  | printer_state (serial : string) (state : PrinterState)
  | printer_connected (serial : string)
  | printer_disconnected (serial : string)
  | usage_logged (serial print_name : string) (tray_usage : TrayMap)
  | initial_state (connected update_available : bool) (printers : gmap string bool)
  | tag_removed.

(** Handles for the objects the tracker only stores and passes on. *)
Definition Callable := string.
Definition EventLoop := positive.

Inductive Effect :=
  (* logger.info("Print started on ...") with the number of trays tracked *)
  | log_print_started (serial print_name : string) (tracked : nat)
  (* logger.warning("... no tray remain data captured!") *)
  | log_no_tray_data (serial : string)
  (* logger.debug("No active session for ..., ignoring print end") *)
  | log_no_session (serial : string)
  (* logger.info("Print completed|failed on ...: usage: ...") *)
  | log_print_ended (serial : string) (success : bool) (print_name : string)
                    (tray_usage : TrayMap)
  (* logger.warning("... Print ended but usage is empty!") *)
  | log_usage_empty (serial : string)
  (* loop.call_soon_threadsafe(lambda: create_task(cb(serial, name, usage))) *)
  | call_soon_threadsafe (loop : EventLoop) (cb : Callable)
                         (serial print_name : string) (tray_usage : TrayMap)
  (* loop.create_task(broadcast_message(message)) *)
  | create_task_broadcast (message : Message)
  (* await asyncio.sleep(seconds) *)
  | asyncio_sleep (seconds : Z).

(* ===================================================================== *)
(** * usage_tracker.py *)
(* ===================================================================== *)

Record PrintSession := {
  printer_serial : string;
  print_name : string;
  start_progress : Z;
  tray_remain_start : TrayMap;
  active_tray : option Z;
}.

Record UsageTracker := {
  _sessions : gmap string PrintSession;
  _on_usage_logged : option Callable;
  _loop : option EventLoop;
}.

Definition set_usage_callback (callback : Callable) (t : UsageTracker) : UsageTracker :=
  {| _sessions := _sessions t; _on_usage_logged := Some callback; _loop := _loop t |}.

Definition set_event_loop (loop : EventLoop) (t : UsageTracker) : UsageTracker :=
  {| _sessions := _sessions t; _on_usage_logged := _on_usage_logged t; _loop := Some loop |}.

(** [x or default] on an optional string: [None] and [""] are falsy. *)
Definition str_or (x : option string) (default : string) : string :=
  match x with
  | Some s => if bool_decide (s = "") then default else s
  | None => default
  end.

(** [x or 0] on an optional integer. *)
Definition int_or_0 (x : option Z) : Z := default 0 x.

(** The loop that both handlers run over the snapshot
    ([tray_remain] in [_on_print_start], [current_remain] in
    [_on_print_end]): every tray with a non-null [remain], in order, a
    later tray with the same key overwriting an earlier one, and last the
    virtual tray under [(255, 0)]. *)
Definition capture_tray (ams_id : Z) (acc : TrayMap) (tray : AmsTray) : TrayMap :=
  match remain tray with
  | Some r => <[(ams_id, tray_id tray) := r]> acc
  | None => acc
  end.

Definition capture_unit (acc : TrayMap) (ams_unit : AmsUnit) : TrayMap :=
  foldl (capture_tray (unit_id ams_unit)) acc (trays ams_unit).

Definition capture_remain (state : PrinterState) : TrayMap :=
  let tray_remain := foldl capture_unit ∅ (ams_units state) in
  match vt_tray state with
  | Some vt =>
      match remain vt with
      | Some r => <[VT_KEY := r]> tray_remain
      | None => tray_remain
      end
  | None => tray_remain
  end.

Definition _on_print_start (serial : string) (state : PrinterState) (t : UsageTracker)
  : UsageTracker * list Effect :=
  let print_name := str_or (subtask_name state) "Unknown" in
  let tray_remain := capture_remain state in
  let session := {| printer_serial := serial;
                    print_name := print_name;
                    start_progress := int_or_0 (print_progress state);
                    tray_remain_start := tray_remain;
                    active_tray := tray_now state |} in
  ({| _sessions := <[serial := session]> (_sessions t);
      _on_usage_logged := _on_usage_logged t;
      _loop := _loop t |},
   log_print_started serial print_name (size tray_remain)
   :: (if bool_decide (tray_remain = ∅) then [log_no_tray_data serial] else [])).

(** One round of the loop "Calculate delta for each tray". *)
Definition usage_step (current_remain : TrayMap)
    (key : TrayKey) (start_remain : Z) (tray_usage : TrayMap) : TrayMap :=
  match current_remain !! key with
  | Some end_remain =>
      if end_remain <? start_remain then
        let used_percent := start_remain - end_remain in
        if 0 <? used_percent then <[key := used_percent]> tray_usage else tray_usage
      else tray_usage
  | None => tray_usage
  end.

Definition compute_tray_usage (session : PrintSession) (current_remain : TrayMap) : TrayMap :=
  map_fold (usage_step current_remain) ∅ (tray_remain_start session).

(** "Notify callback if usage detected". *)
Definition notify_usage (t : UsageTracker) (serial : string) (session : PrintSession)
    (tray_usage : TrayMap) : list Effect :=
  if bool_decide (tray_usage ≠ ∅) then
    match _on_usage_logged t with
    | Some cb =>
        match _loop t with
        | Some loop => [call_soon_threadsafe loop cb serial (print_name session) tray_usage]
        | None => []
        end
    | None => []
    end
  else [].

Definition _on_print_end (serial : string) (state : PrinterState) (success : bool)
    (t : UsageTracker) : UsageTracker * list Effect :=
  (* session = self._sessions.pop(serial, None) *)
  let session := _sessions t !! serial in
  let t := {| _sessions := delete serial (_sessions t);
              _on_usage_logged := _on_usage_logged t;
              _loop := _loop t |} in
  match session with
  | None => (t, [log_no_session serial])
  | Some session =>
      let current_remain := capture_remain state in
      let tray_usage := compute_tray_usage session current_remain in
      (t,
       log_print_ended serial success (print_name session) tray_usage
       :: (if bool_decide (tray_usage = ∅) && negb (bool_decide (tray_remain_start session = ∅))
           then [log_usage_empty serial] else [])
       ++ notify_usage t serial session tray_usage)
  end.

Definition on_state_update (serial : string) (state : PrinterState)
    (prev_state : option PrinterState) (t : UsageTracker) : UsageTracker * list Effect :=
  let gcode := gcode_state state in
  let prev_gcode_state := prev_state ≫= gcode_state in
  if bool_decide (gcode = Some "RUNNING") && negb (bool_decide (prev_gcode_state = Some "RUNNING"))
  then _on_print_start serial state t
  else if (bool_decide (gcode = Some "FINISH") || bool_decide (gcode = Some "IDLE"))
          && bool_decide (prev_gcode_state = Some "RUNNING")
  then _on_print_end serial state (bool_decide (gcode = Some "FINISH")) t
  else if bool_decide (gcode = Some "FINISH") && bool_decide (prev_gcode_state = Some "PAUSE")
  then _on_print_end serial state true t
  else (t, []).

(** [get_active_sessions]: per device, the name, the active tray and the
    number of trays tracked. *)
Definition get_active_sessions (t : UsageTracker) : gmap string (string * option Z * nat) :=
  (λ session, (print_name session, active_tray session, size (tray_remain_start session)))
    <$> _sessions t.

(** ** estimate_weight_from_percent *)

(** Python floats are IEEE-754 binary64 values. *)
Definition PREC : Z := 53.
Definition EMAX : Z := 1024.

(** Conversion of a Python [int] operand of a float operation: rounded to
    nearest even; [None] stands for the [OverflowError] raised when the
    integer is too large for a float. *)
Definition float_of_int (n : Z) : option spec_float :=
  match binary_normalize PREC EMAX n 0 false with
  | S754_infinity _ => None
  | f => Some f
  end.

(** The literal [100.0]. *)
Definition FLOAT_100 : spec_float := S754_finite false 7036874417766400 (-46).

(** [(remain_percent_used / 100.0) * label_weight]; [core_weight] is an
    argument that the body never reads. *)
Definition estimate_weight_from_percent
    (remain_percent_used label_weight core_weight : Z) : option spec_float :=
  p ← float_of_int remain_percent_used;
  let fraction := SFdiv PREC EMAX p FLOAT_100 in
  w ← float_of_int label_weight;
  Some (SFmul PREC EMAX fraction w).

(** Float equality [x == y] ([False] on NaN, [-0.0 == 0.0]). *)
Definition float_eq (x y : spec_float) : bool := SFeqb x y.

(** [x - y], [x < y] and [x <= y] on floats. *)
Definition float_sub (x y : spec_float) : spec_float := SFsub PREC EMAX x y.
Definition float_lt (x y : spec_float) : bool := SFltb x y.
Definition float_le (x y : spec_float) : bool := SFleb x y.

(** The float [0.0]; the integer [0] compares equal to it. *)
Definition FLOAT_0 : spec_float := S754_zero false.

(** A reading of [time.time()]: a positive finite float in canonical
    form. *)
Definition is_clock_reading (t : spec_float) : bool :=
  match t with
  | S754_finite false m e => bounded PREC EMAX m e
  | _ => false
  end.

(* ===================================================================== *)
(** * main.py: display liveness and command mailbox *)
(* ===================================================================== *)

(** The module-level variables that describe the ESP32 display. *)
Record Display := {
  _display_last_seen : spec_float;
  _display_connected : bool;
  _display_pending_command : option string;
  _display_firmware_version : option string;
  _device_update_available : bool;
}.

(** [DISPLAY_TIMEOUT_SEC = 10]: an integer that a float holds exactly, so
    comparing a float with it is comparing with the float [10.0]. *)
Definition DISPLAY_TIMEOUT_SEC : spec_float := S754_finite false 5629499534213120 (-49).

(** The values the globals have when the module is loaded. *)
Definition display_init : Display :=
  {| _display_last_seen := FLOAT_0;
     _display_connected := false;
     _display_pending_command := None;
     _display_firmware_version := None;
     _device_update_available := false |}.

(** [running_loop] tells whether [asyncio.get_running_loop()] succeeds;
    when it raises [RuntimeError] the broadcast is skipped. *)
Definition update_display_heartbeat (running_loop : bool) (now : spec_float) (d : Display)
  : Display * list Effect :=
  let was_connected := _display_connected d in
  ({| _display_last_seen := now;
      _display_connected := true;
      _display_pending_command := _display_pending_command d;
      _display_firmware_version := _display_firmware_version d;
      _device_update_available := _device_update_available d |},
   if negb was_connected && running_loop
   then [create_task_broadcast device_connected] else []).

(** [now] is the reading of [time.time()]. *)
Definition is_display_connected (now : spec_float) (d : Display) : bool :=
  if float_eq (_display_last_seen d) FLOAT_0 then false
  else float_lt (float_sub now (_display_last_seen d)) DISPLAY_TIMEOUT_SEC.

Definition queue_display_command (command : string) (d : Display) : Display :=
  {| _display_last_seen := _display_last_seen d;
     _display_connected := _display_connected d;
     _display_pending_command := Some command;
     _display_firmware_version := _display_firmware_version d;
     _device_update_available := _device_update_available d |}.

Definition pop_display_command (d : Display) : option string * Display :=
  let cmd := _display_pending_command d in
  (cmd,
   {| _display_last_seen := _display_last_seen d;
      _display_connected := _display_connected d;
      _display_pending_command := None;
      _display_firmware_version := _display_firmware_version d;
      _device_update_available := _device_update_available d |}).

(** Truthiness of an optional string: [None] and [""] are falsy. *)
Definition truthy (x : option string) : option string :=
  match x with
  | Some s => if bool_decide (s = "") then None else Some s
  | None => None
  end.

(** The endpoint [GET /api/display/heartbeat].  It is a coroutine, so a
    loop is running when it calls [update_display_heartbeat].  The first
    component of the result is the ["command"] field of the response. *)
Definition display_heartbeat (now : spec_float) (version : option string)
    (update_available : option bool) (d : Display)
  : option string * Display * list Effect :=
  let '(d, connected_events) := update_display_heartbeat true now d in
  let d :=
    match truthy version with
    | Some v =>
        {| _display_last_seen := _display_last_seen d;
           _display_connected := _display_connected d;
           _display_pending_command := _display_pending_command d;
           _display_firmware_version := Some v;
           _device_update_available := _device_update_available d |}
    | None => d
    end in
  let '(d, update_events) :=
    match update_available with
    | Some ua =>
        let old_status := _device_update_available d in
        ({| _display_last_seen := _display_last_seen d;
            _display_connected := _display_connected d;
            _display_pending_command := _display_pending_command d;
            _display_firmware_version := _display_firmware_version d;
            _device_update_available := ua |},
         if bool_decide (old_status ≠ ua)
         then [create_task_broadcast (device_update_available ua)] else [])
    | None => (d, [])
    end in
  let '(cmd, d) := pop_display_command d in
  (truthy cmd, d, connected_events ++ update_events).


(* ===================================================================== *)
(** * main.py: the WebSocket registry *)
(* ===================================================================== *)

(** A client is known by the identity of its [WebSocket] object. *)
Definition WebSocket := positive.

(** The connections as the server sees them: the text frames delivered to
    each client so far, and the clients on which [send_text] raises. *)
Record Transport := {
  inbox : gmap WebSocket (list string);
  closed : gset WebSocket;
}.

Definition received (net : Transport) (ws : WebSocket) : list string :=
  default [] (inbox net !! ws).

(** [await ws.send_text(text)]; [None] when it raises. *)
Definition send_text (ws : WebSocket) (text : string) (net : Transport) : option Transport :=
  if bool_decide (ws ∈ closed net) then None
  else Some {| inbox := <[ws := received net ws ++ [text]]> (inbox net);
               closed := closed net |}.

Record Hub := {
  websocket_clients : gset WebSocket;
  transport : Transport;
}.

Section Broadcast.
(** [json.dumps] on the messages of the server. *)
Variable json_dumps : Message → string.

(** One round of [for ws in websocket_clients]: the accumulator is the
    set [disconnected] and the transport. *)
Definition broadcast_step (text : string)
    (acc : gset WebSocket * Transport) (ws : WebSocket) : gset WebSocket * Transport :=
  let '(disconnected, net) := acc in
  match send_text ws text net with
  | Some net' => (disconnected, net')
  | None => ({[ws]} ∪ disconnected, net)
  end.

Definition broadcast_message (message : Message) (hub : Hub) : Hub :=
  if bool_decide (websocket_clients hub = ∅) then hub
  else
    let text := json_dumps message in
    let '(disconnected, net) :=
      foldl (broadcast_step text) (∅, transport hub) (elements (websocket_clients hub)) in
    {| websocket_clients := websocket_clients hub ∖ disconnected;
       transport := net |}.

(** [websocket_endpoint] up to the receive loop: the client is added to
    the registry, then the initial state is sent inside [try]; a failure
    of that send is logged and nothing else.  [printers] is
    [printer_manager._connections] reduced to the [connected] flags.
    [websocket.accept()] is taken to succeed. *)
Definition websocket_endpoint_open (now : spec_float) (d : Display)
    (printers : gmap string bool)
    (websocket : WebSocket) (hub : Hub) : Hub :=
  let clients := {[websocket]} ∪ websocket_clients hub in
  let display_connected := is_display_connected now d in
  let message := initial_state display_connected (_device_update_available d) printers in
  match send_text websocket (json_dumps message) (transport hub) with
  | Some net => {| websocket_clients := clients; transport := net |}
  | None => {| websocket_clients := clients; transport := transport hub |}
  end.

(** The [finally] clause of [websocket_endpoint], run when the receive
    loop ends: [websocket_clients.discard(websocket)]. *)
Definition websocket_endpoint_finally (websocket : WebSocket) (hub : Hub) : Hub :=
  {| websocket_clients := websocket_clients hub ∖ {[websocket]};
     transport := transport hub |}.

(** One round of the loop of [check_display_timeout], after the sleep. *)
Definition check_display_timeout_step (now : spec_float) (st : Display * Hub)
  : Display * Hub :=
  let '(d, hub) := st in
  if _display_connected d && negb (is_display_connected now d) then
    ({| _display_last_seen := _display_last_seen d;
        _display_connected := false;
        _display_pending_command := _display_pending_command d;
        _display_firmware_version := _display_firmware_version d;
        _device_update_available := _device_update_available d |},
     (* await broadcast_message({"type": "device_disconnected"}) *)
     broadcast_message device_disconnected hub)
  else (d, hub).

(** The argument of [await asyncio.sleep(2)]. *)
Definition CHECK_PERIOD : Z := 2.

(** Rounds of the [while True] loop.  A round sleeps and then checks with
    the clock it reads.  The sleep ends two seconds after it began or
    later, as the event loop decides, so the clock readings are given, one
    for each round, oldest first; the sleeps are recorded as effects. *)
Fixpoint check_display_timeout (readings : list spec_float) (st : Display * Hub)
  : Display * Hub * list Effect :=
  match readings with
  | [] => (st, [])
  | now :: later =>
      let '(final, effects) :=
        check_display_timeout later (check_display_timeout_step now st) in
      (final, asyncio_sleep CHECK_PERIOD :: effects)
  end.
End Broadcast.

(* ===================================================================== *)
(** * main.py: printer callbacks *)
(* ===================================================================== *)

Record App := {
  _previous_states : gmap string PrinterState;
  usage_tracker : UsageTracker;
}.

(** The broadcast is scheduled with [loop.create_task] when a loop is
    running in the calling thread, and skipped otherwise. *)
Definition schedule_broadcast (running_loop : bool) (message : Message) : list Effect :=
  if running_loop then [create_task_broadcast message] else [].

Definition on_printer_state_update (running_loop : bool) (serial : string)
    (state : PrinterState) (app : App) : App * list Effect :=
  let prev_state := _previous_states app !! serial in
  let '(tracker, tracked) := on_state_update serial state prev_state (usage_tracker app) in
  ({| _previous_states := <[serial := state]> (_previous_states app);
      usage_tracker := tracker |},
   tracked ++ schedule_broadcast running_loop (printer_state serial state)).

Definition on_printer_connect (running_loop : bool) (serial : string) (app : App)
  : App * list Effect :=
  (app, schedule_broadcast running_loop (printer_connected serial)).

Definition on_printer_disconnect (running_loop : bool) (serial : string) (app : App)
  : App * list Effect :=
  ({| _previous_states := delete serial (_previous_states app);
      usage_tracker := usage_tracker app |},
   schedule_broadcast running_loop (printer_disconnected serial)).

(** A run of state updates for one device, oldest first. *)
Definition replay_updates (running_loop : bool) (serial : string)
    (states : list PrinterState) (app : App) : App :=
  foldl (λ app state, fst (on_printer_state_update running_loop serial state app)) app states.

(* ===================================================================== *)
(** * The transition rules in the words of the specification *)
(* ===================================================================== *)

(** The lifecycle phases of the specification. *)
Inductive Phase := idle | running | paused | finished | other_phase.

Global Instance Phase_eq_dec : EqDecision Phase.
Proof. solve_decision. Defined.

(** The phase reported by a [gcode_state]. *)
Definition lifecycle_phase (gcode : option string) : Phase :=
  match gcode with
  | Some s =>
      if bool_decide (s = "RUNNING") then running
      else if bool_decide (s = "FINISH") then finished
      else if bool_decide (s = "IDLE") then idle
      else if bool_decide (s = "PAUSE") then paused
      else other_phase
  | None => other_phase
  end.

Definition snapshot_phase (state : PrinterState) : Phase :=
  lifecycle_phase (gcode_state state).

Inductive Outcome := session_start | session_end (success : bool).

(** Rules 1 to 4 of the Session Tracker, first match wins. *)
Definition lifecycle_outcome (new : Phase) (previous : option Phase) : option Outcome :=
  if decide (new = running ∧ previous ≠ Some running) then Some session_start
  else if decide ((new = finished ∨ new = idle) ∧ previous = Some running)
  then Some (session_end (bool_decide (new = finished)))
  else if decide (new = finished ∧ previous = Some paused) then Some (session_end true)
  else None.

(** What the tracker does for an outcome. *)
Definition run_outcome (serial : string) (state : PrinterState) (t : UsageTracker)
    (outcome : option Outcome) : UsageTracker * list Effect :=
  match outcome with
  | Some session_start => _on_print_start serial state t
  | Some (session_end success) => _on_print_end serial state success t
  | None => (t, [])
  end.

(** The records by which a handler reports a session start or end. *)
Definition is_lifecycle_record (e : Effect) : bool :=
  match e with
  | log_print_started _ _ _ | log_print_ended _ _ _ _ => true
  | _ => false
  end.

Definition is_call_soon (e : Effect) : bool :=
  match e with
  | call_soon_threadsafe _ _ _ _ _ => true
  | _ => false
  end.

(** The snapshot has a non-null reading [v] for [key]: a tray of an AMS
    unit, or the virtual tray under its reserved key. *)
Definition has_reading (state : PrinterState) (key : TrayKey) (v : Z) : Prop :=
  (∃ ams_unit tray, ams_unit ∈ ams_units state ∧ tray ∈ trays ams_unit
     ∧ key = (unit_id ams_unit, tray_id tray) ∧ remain tray = Some v)
  ∨ (∃ vt, vt_tray state = Some vt ∧ key = VT_KEY ∧ remain vt = Some v).

(** What one baseline entry contributes to the usage. *)
Definition slot_delta (current_remain : TrayMap) (key : TrayKey) (start_remain : Z)
  : option Z :=
  end_remain ← current_remain !! key;
  if end_remain <? start_remain then Some (start_remain - end_remain) else None.


(** The condition under which [on_state_update] calls [_on_print_end]. *)
Definition ends_session (state : PrinterState) (prev_state : option PrinterState) : Prop :=
  ((gcode_state state = Some "FINISH" ∨ gcode_state state = Some "IDLE")
   ∧ prev_state ≫= gcode_state = Some "RUNNING")
  ∨ (gcode_state state = Some "FINISH" ∧ prev_state ≫= gcode_state = Some "PAUSE").

(* ===================================================================== *)
(** * Reachable states of the display monitor *)
(* ===================================================================== *)

(** The states the display variables can take: the initial values, then
    any sequence of calls of the heartbeat endpoint (with any version and
    update flag) or of [update_display_heartbeat] alone, of timeout checks
    and of mailbox operations.  The clock read by a heartbeat is a reading
    of [time.time()], which is positive, [0] being the value that the
    module keeps in [_display_last_seen] until the first heartbeat. *)
Inductive display_reachable : Display → Prop :=
  | reach_init : display_reachable display_init
  | reach_heartbeat running_loop now d :
      is_clock_reading now = true →
      display_reachable d →
      display_reachable (update_display_heartbeat running_loop now d).1
  | reach_endpoint now version update_available d :
      is_clock_reading now = true →
      display_reachable d →
      display_reachable (display_heartbeat now version update_available d).1.2
  | reach_check json_dumps now d hub :
      display_reachable d →
      display_reachable (check_display_timeout_step json_dumps now (d, hub)).1
  | reach_queue command d :
      display_reachable d →
      display_reachable (queue_display_command command d)
  | reach_pop d :
      display_reachable d →
      display_reachable (pop_display_command d).2.

(** The state after the timeout was detected. *)
Definition mark_disconnected (d : Display) : Display :=
  {| _display_last_seen := _display_last_seen d;
     _display_connected := false;
     _display_pending_command := _display_pending_command d;
     _display_firmware_version := _display_firmware_version d;
     _device_update_available := _device_update_available d |}.

(** The condition under which [on_state_update] calls [_on_print_start]. *)
Definition starts_session (state : PrinterState) (prev_state : option PrinterState) : Prop :=
  gcode_state state = Some "RUNNING" ∧ prev_state ≫= gcode_state ≠ Some "RUNNING".

(* ===================================================================== *)
(** * Further definitions *)
(* ===================================================================== *)

(** The non-null readings of a snapshot in the order in which the capture
    loop visits them: the trays of every AMS unit, then the virtual
    tray. *)
Definition tray_reading (ams_id : Z) (tray : AmsTray) : option (TrayKey * Z) :=
  r ← remain tray; Some ((ams_id, tray_id tray), r).

Definition unit_readings (ams_unit : AmsUnit) : list (TrayKey * Z) :=
  omap (tray_reading (unit_id ams_unit)) (trays ams_unit).

Definition snapshot_readings (state : PrinterState) : list (TrayKey * Z) :=
  (ams_units state ≫= unit_readings)
  ++ match vt_tray state with
     | Some vt => match remain vt with Some r => [(VT_KEY, r)] | None => [] end
     | None => []
     end.

(** Storing one reading in the dictionary: [d[key] = value]. *)
Definition store_reading (acc : TrayMap) (kv : TrayKey * Z) : TrayMap :=
  <[kv.1 := kv.2]> acc.

(** The endpoint [GET /api/display/status]: the ["connected"],
    ["last_seen"], ["firmware_version"] and ["update_available"] fields of
    the response. *)
Record DisplayStatus := {
  status_connected : bool;
  status_last_seen : option spec_float;
  status_firmware_version : option string;
  status_update_available : bool;
}.

Definition display_status (now : spec_float) (d : Display) : DisplayStatus :=
  {| status_connected := is_display_connected now d;
     status_last_seen :=
       if float_lt FLOAT_0 (_display_last_seen d) then Some (_display_last_seen d)
       else None;
     status_firmware_version := _display_firmware_version d;
     status_update_available := _device_update_available d |}.

(** ** api/device.py: commands for the display *)

(** The outcome of an endpoint: the success response, or the
    [HTTPException] with status 400 and detail "No device connected". *)
Inductive DeviceResponse := command_queued | no_device_connected.

(** The body shared by [reboot_device], [update_device], [scale_tare] and
    [scale_reset]: refuse unless [is_display_connected()], else queue the
    command. *)
Definition queue_if_connected (command : string) (now : spec_float) (d : Display)
  : DeviceResponse * Display :=
  if negb (is_display_connected now d) then (no_device_connected, d)
  else (command_queued, queue_display_command command d).

Definition reboot_device : spec_float → Display → DeviceResponse * Display :=
  queue_if_connected "reboot".
Definition update_device : spec_float → Display → DeviceResponse * Display :=
  queue_if_connected "update".
Definition scale_tare : spec_float → Display → DeviceResponse * Display :=
  queue_if_connected "scale_tare".
Definition scale_reset : spec_float → Display → DeviceResponse * Display :=
  queue_if_connected "scale_reset".

(* ===================================================================== *)
(** * Sample scenarios *)
(* ===================================================================== *)

Definition sample_tray (slot : Z) (percent : Z) : AmsTray :=
  {| tray_id := slot; remain := Some percent |}.

Definition sample_state (gcode : string) (units : list AmsUnit) (vt : option AmsTray)
  : PrinterState :=
  {| gcode_state := Some gcode;
     subtask_name := Some "benchy";
     print_progress := Some 0;
     ams_units := units;
     vt_tray := vt;
     tray_now := Some 0 |}.

Definition sample_session (baseline : TrayMap) : PrintSession :=
  {| printer_serial := "P1";
     print_name := "benchy";
     start_progress := 0;
     tray_remain_start := baseline;
     active_tray := Some 0 |}.

(** A tracker wired as [lifespan] does, with one session for ["P1"]. *)
Definition sample_tracker (baseline : TrayMap) : UsageTracker :=
  {| _sessions := {["P1" := sample_session baseline]};
     _on_usage_logged := Some "on_usage_logged";
     _loop := Some 1%positive |}.

(** Three trays tracked at the start: two AMS trays and the virtual one. *)
Definition sample_baseline : TrayMap :=
  <[(0, 0) := 80]> (<[(0, 1) := 60]> (<[VT_KEY := 50]> ∅)).

(** At the end tray [(0, 1)] is gone, tray [(0, 0)] is at 75 and the
    virtual tray at 40. *)
Definition sample_end_state : PrinterState :=
  sample_state "FINISH"
    [{| unit_id := 0; trays := [sample_tray 0 75] |}]
    (Some (sample_tray 0 40)).

(** The float that holds a whole number of seconds. *)
Definition sample_time (seconds : Z) : spec_float :=
  binary_normalize PREC EMAX seconds 0 false.

(** The display after one heartbeat at time 100. *)
Definition sample_display : Display :=
  (update_display_heartbeat true (sample_time 100) display_init).1.

Definition sample_hub : Hub :=
  {| websocket_clients := ∅;
     transport := {| inbox := ∅; closed := ∅ |} |}.

(** Three clients; the connection of the second one is broken. *)
Definition sample_hub3 : Hub :=
  {| websocket_clients := {[1%positive; 2%positive; 3%positive]};
     transport := {| inbox := ∅; closed := {[2%positive]} |} |}.

(** No client yet; client 2 will connect over a connection that breaks
    before the initial state is sent. *)
Definition sample_closed_hub : Hub :=
  {| websocket_clients := ∅;
     transport := {| inbox := ∅; closed := {[2%positive]} |} |}.

(** A serializer that keeps the type of the message only. *)
Definition sample_dumps (message : Message) : string :=
  match message with
  | device_connected => "device_connected"
  | device_disconnected => "device_disconnected"
  | device_update_available _ => "device_update_available"
  | printer_state _ _ => "printer_state"
  | printer_connected _ => "printer_connected"
  | printer_disconnected _ => "printer_disconnected"
  | usage_logged _ _ _ => "usage_logged"
  | initial_state _ _ _ => "initial_state"
  | tag_removed => "tag_removed"
  end.

(** The application while ["P1"] prints: a session is open and the last
    snapshot seen was a running one. *)
Definition sample_app : App :=
  {| _previous_states := {["P1" := sample_state "RUNNING" [] None]};
     usage_tracker := sample_tracker sample_baseline |}.

(** An end snapshot in which nothing was consumed. *)
Definition sample_idle_end_state : PrinterState :=
  sample_state "FINISH" [{| unit_id := 0; trays := [sample_tray 0 80] |}] None.
(* ===================================================================== *)
(** * Properties of the session tracker *)
(* ===================================================================== *)

Lemma lifecycle_phase_running gcode :
  lifecycle_phase gcode = running ↔ gcode = Some "RUNNING".
Proof.
  unfold lifecycle_phase. destruct gcode as [s|]; [|naive_solver].
  repeat case_bool_decide; naive_solver.
Qed.

Lemma lifecycle_phase_finished gcode :
  lifecycle_phase gcode = finished ↔ gcode = Some "FINISH".
Proof.
  unfold lifecycle_phase. destruct gcode as [s|]; [|naive_solver].
  repeat case_bool_decide; naive_solver.
Qed.

Lemma lifecycle_phase_idle gcode :
  lifecycle_phase gcode = idle ↔ gcode = Some "IDLE".
Proof.
  unfold lifecycle_phase. destruct gcode as [s|]; [|naive_solver].
  repeat case_bool_decide; naive_solver.
Qed.

Lemma lifecycle_phase_paused gcode :
  lifecycle_phase gcode = paused ↔ gcode = Some "PAUSE".
Proof.
  unfold lifecycle_phase. destruct gcode as [s|]; [|naive_solver].
  repeat case_bool_decide; naive_solver.
Qed.

Lemma previous_phase_is prev_state (ph : Phase) (name : string) :
  (∀ gcode, lifecycle_phase gcode = ph ↔ gcode = Some name) →
  snapshot_phase <$> prev_state = Some ph ↔ prev_state ≫= gcode_state = Some name.
Proof.
  intros Hph. destruct prev_state as [p|]; simpl; [|by split].
  unfold snapshot_phase. split.
  - intros [= H]. by apply Hph.
  - intros H. f_equal. by apply Hph.
Qed.

Lemma on_print_start_records serial state t :
  length (filter is_lifecycle_record (_on_print_start serial state t).2) = 1%nat.
Proof.
  unfold _on_print_start. simpl. by case_bool_decide.
Qed.

Lemma notify_usage_records t serial session usage :
  filter is_lifecycle_record (notify_usage t serial session usage) = [].
Proof.
  unfold notify_usage. case_bool_decide; [|done].
  destruct (_on_usage_logged t); [|done]. by destruct (_loop t).
Qed.

Lemma on_print_end_records serial state success t :
  (length (filter is_lifecycle_record (_on_print_end serial state success t).2) ≤ 1)%nat.
Proof.
  unfold _on_print_end. destruct (_sessions t !! serial) as [session|]; simpl.
  - rewrite filter_app, notify_usage_records.
    destruct (_ && _); simpl; lia.
  - lia.
Qed.

Lemma on_state_update_cases serial state prev_state t :
  on_state_update serial state prev_state t
  = (if decide (gcode_state state = Some "RUNNING"
                  ∧ prev_state ≫= gcode_state ≠ Some "RUNNING")
       then _on_print_start serial state t
       else if decide ((gcode_state state = Some "FINISH" ∨ gcode_state state = Some "IDLE")
                       ∧ prev_state ≫= gcode_state = Some "RUNNING")
       then _on_print_end serial state (bool_decide (gcode_state state = Some "FINISH")) t
       else if decide (gcode_state state = Some "FINISH"
                       ∧ prev_state ≫= gcode_state = Some "PAUSE")
       then _on_print_end serial state true t
       else (t, [])).
Proof.
  unfold on_state_update.
  repeat case_bool_decide; simpl; repeat case_decide;
    first [ reflexivity | exfalso; intuition congruence ].
Qed.

(** C1. [on_state_update] does what the first matching rule of the
    specification says and nothing more: it is [_on_print_start] when the
    new phase is running and the previous one (a missing previous snapshot
    included) is not; otherwise [_on_print_end] with
    [success = (new phase is finished)] when the new phase is finished or
    idle and the previous one is running; otherwise [_on_print_end] with
    [success = true] when the new phase is finished and the previous one is
    paused; otherwise it changes nothing and performs no effect.  At most
    one start or end record is produced by a call. *)
Theorem on_state_update_first_match
    (serial : string) (state : PrinterState) (prev_state : option PrinterState)
    (t : UsageTracker) :
  on_state_update serial state prev_state t
    = run_outcome serial state t
        (lifecycle_outcome (snapshot_phase state) (snapshot_phase <$> prev_state))
  ∧ on_state_update serial state prev_state t
    = (if decide (gcode_state state = Some "RUNNING"
                  ∧ prev_state ≫= gcode_state ≠ Some "RUNNING")
       then _on_print_start serial state t
       else if decide ((gcode_state state = Some "FINISH" ∨ gcode_state state = Some "IDLE")
                       ∧ prev_state ≫= gcode_state = Some "RUNNING")
       then _on_print_end serial state (bool_decide (gcode_state state = Some "FINISH")) t
       else if decide (gcode_state state = Some "FINISH"
                       ∧ prev_state ≫= gcode_state = Some "PAUSE")
       then _on_print_end serial state true t
       else (t, []))
  ∧ (length (filter is_lifecycle_record (on_state_update serial state prev_state t).2) ≤ 1)%nat.
Proof.
  pose proof (on_state_update_cases serial state prev_state t) as Hcode.
  split; [|split; [exact Hcode|]].
  - rewrite Hcode. unfold lifecycle_outcome, run_outcome, snapshot_phase.
    pose proof (lifecycle_phase_running (gcode_state state)) as Hr.
    pose proof (lifecycle_phase_finished (gcode_state state)) as Hf.
    pose proof (lifecycle_phase_idle (gcode_state state)) as Hi.
    pose proof (previous_phase_is prev_state running "RUNNING" lifecycle_phase_running) as Hpr.
    pose proof (previous_phase_is prev_state paused "PAUSE" lifecycle_phase_paused) as Hpp.
    unfold snapshot_phase in Hpr, Hpp.
    repeat case_decide; try done; exfalso; naive_solver.
  - rewrite Hcode.
    repeat case_decide;
      first [ rewrite on_print_start_records; lia
            | apply on_print_end_records
            | simpl; lia ].
Qed.

(** ** End-of-session usage *)

Lemma compute_tray_usage_lookup session current_remain key :
  compute_tray_usage session current_remain !! key
  = tray_remain_start session !! key ≫= slot_delta current_remain key.
Proof.
  unfold compute_tray_usage. revert key.
  apply (map_fold_weak_ind
    (λ usage baseline, ∀ key : TrayKey,
       usage !! key = baseline !! key ≫= slot_delta current_remain key)).
  - intros key. by rewrite !lookup_empty.
  - intros i x m r Hfresh IH key. unfold usage_step.
    destruct (decide (key = i)) as [->|Hne].
    + rewrite lookup_insert_eq. simpl. unfold slot_delta.
      specialize (IH i). rewrite Hfresh in IH. simpl in IH.
      destruct (current_remain !! i) as [e|] eqn:He; simpl; [|done].
      destruct (e <? x) eqn:Hlt; [|done].
      apply Z.ltb_lt in Hlt.
      assert ((0 <? x - e) = true) as -> by (apply Z.ltb_lt; lia).
      by rewrite lookup_insert_eq.
    + rewrite (lookup_insert_ne m) by done. rewrite <- IH.
      destruct (current_remain !! i) as [e|]; [|done].
      destruct (e <? x); [|done].
      destruct (0 <? x - e); [|done].
      by rewrite lookup_insert_ne.
Qed.

Lemma capture_tray_lookup ams_id acc tray key :
  capture_tray ams_id acc tray !! key
  = match remain tray with
    | Some r => if decide (key = (ams_id, tray_id tray)) then Some r else acc !! key
    | None => acc !! key
    end.
Proof.
  unfold capture_tray. destruct (remain tray) as [r|]; [|done].
  case_decide as Hk.
  - subst key. apply lookup_insert_eq.
  - by rewrite lookup_insert_ne.
Qed.

Lemma capture_unit_sound ams_unit key v : ∀ acc,
  capture_unit acc ams_unit !! key = Some v →
  acc !! key = Some v
  ∨ ∃ tray, tray ∈ trays ams_unit ∧ key = (unit_id ams_unit, tray_id tray)
            ∧ remain tray = Some v.
Proof.
  unfold capture_unit. induction (trays ams_unit) as [|tray rest IH]; intros acc H.
  - by left.
  - simpl in H. apply IH in H as [H|(tr & Hin & Hk & Hr)].
    + rewrite capture_tray_lookup in H.
      destruct (remain tray) as [r|] eqn:Hr; [|by left].
      case_decide as Hk; [|by left].
      right. exists tray. split; [apply list_elem_of_here|]. by simplify_eq.
    + right. exists tr. split; [by apply list_elem_of_further|done].
Qed.

Lemma capture_unit_keeps ams_unit key : ∀ acc,
  is_Some (acc !! key) → is_Some (capture_unit acc ams_unit !! key).
Proof.
  unfold capture_unit. induction (trays ams_unit) as [|tray rest IH]; intros acc H.
  - done.
  - simpl. apply IH. rewrite capture_tray_lookup.
    destruct (remain tray); [|done]. by case_decide.
Qed.

Lemma capture_unit_complete ams_unit tray v : ∀ acc,
  tray ∈ trays ams_unit → remain tray = Some v →
  is_Some (capture_unit acc ams_unit !! (unit_id ams_unit, tray_id tray)).
Proof.
  unfold capture_unit. induction (trays ams_unit) as [|tr rest IH]; intros acc Hin Hr.
  - by apply not_elem_of_nil in Hin.
  - simpl. apply elem_of_cons in Hin as [->|Hin].
    + apply (capture_unit_keeps {| unit_id := unit_id ams_unit; trays := rest |}).
      rewrite capture_tray_lookup, Hr. by rewrite decide_True.
    + by apply IH.
Qed.

Lemma capture_units_sound units key v : ∀ acc,
  foldl capture_unit acc units !! key = Some v →
  acc !! key = Some v
  ∨ ∃ ams_unit tray, ams_unit ∈ units ∧ tray ∈ trays ams_unit
      ∧ key = (unit_id ams_unit, tray_id tray) ∧ remain tray = Some v.
Proof.
  induction units as [|u rest IH]; intros acc H.
  - by left.
  - simpl in H. apply IH in H as [H|(u' & tr & Hin & ?)].
    + apply capture_unit_sound in H as [H|(tr & ?)]; [by left|].
      right. exists u, tr. split; [apply list_elem_of_here|done].
    + right. exists u', tr. split; [by apply list_elem_of_further|done].
Qed.

Lemma capture_units_keeps units key : ∀ acc,
  is_Some (acc !! key) → is_Some (foldl capture_unit acc units !! key).
Proof.
  induction units as [|u rest IH]; intros acc H; [done|].
  simpl. by apply IH, capture_unit_keeps.
Qed.

Lemma capture_units_complete units ams_unit tray v : ∀ acc,
  ams_unit ∈ units → tray ∈ trays ams_unit → remain tray = Some v →
  is_Some (foldl capture_unit acc units !! (unit_id ams_unit, tray_id tray)).
Proof.
  induction units as [|u rest IH]; intros acc Hin Htr Hr.
  - by apply not_elem_of_nil in Hin.
  - simpl. apply elem_of_cons in Hin as [->|Hin].
    + by eapply capture_units_keeps, capture_unit_complete.
    + by eapply IH.
Qed.

(** Every entry of the captured dictionary is a reading of the snapshot. *)
Lemma capture_remain_sound state key v :
  capture_remain state !! key = Some v → has_reading state key v.
Proof.
  unfold capture_remain, has_reading. intros H.
  assert (Hunits : foldl capture_unit ∅ (ams_units state) !! key = Some v →
    ∃ ams_unit tray, ams_unit ∈ ams_units state ∧ tray ∈ trays ams_unit
      ∧ key = (unit_id ams_unit, tray_id tray) ∧ remain tray = Some v).
  { intros Hf. apply capture_units_sound in Hf as [Hf|Hf]; [|done].
    by rewrite lookup_empty in Hf. }
  destruct (vt_tray state) as [vt|] eqn:Hvt; [|left; by apply Hunits].
  destruct (remain vt) as [r|] eqn:Hr; [|left; by apply Hunits].
  destruct (decide (key = VT_KEY)) as [->|Hne].
  - rewrite lookup_insert_eq in H. right. exists vt. by simplify_eq.
  - rewrite lookup_insert_ne in H by done. left. by apply Hunits.
Qed.

(** Every key with a non-null reading is in the captured dictionary. *)
Lemma capture_remain_complete state key v :
  has_reading state key v → is_Some (capture_remain state !! key).
Proof.
  unfold capture_remain, has_reading.
  intros [(u & tr & Hu & Htr & -> & Hr)|(vt & Hvt & -> & Hr)].
  - assert (is_Some (foldl capture_unit ∅ (ams_units state) !! (unit_id u, tray_id tr)))
      as Hsome by by eapply capture_units_complete.
    destruct (vt_tray state) as [vt|]; [|done].
    destruct (remain vt) as [r|]; [|done].
    destruct (decide ((unit_id u, tray_id tr) = VT_KEY)) as [->|Hne].
    + by rewrite lookup_insert_eq.
    + by rewrite lookup_insert_ne.
  - rewrite Hvt, Hr. by rewrite lookup_insert_eq.
Qed.

Lemma on_print_end_active serial state success t session :
  _sessions t !! serial = Some session →
  _on_print_end serial state success t
  = let t' := {| _sessions := delete serial (_sessions t);
                 _on_usage_logged := _on_usage_logged t;
                 _loop := _loop t |} in
    let tray_usage := compute_tray_usage session (capture_remain state) in
    (t',
     log_print_ended serial success (print_name session) tray_usage
     :: (if bool_decide (tray_usage = ∅) && negb (bool_decide (tray_remain_start session = ∅))
         then [log_usage_empty serial] else [])
     ++ notify_usage t' serial session tray_usage).
Proof. intros H. unfold _on_print_end. by rewrite H. Qed.

Lemma notify_usage_carries t serial session usage e :
  e ∈ notify_usage t serial session usage →
  ∃ loop cb, _loop t = Some loop ∧ _on_usage_logged t = Some cb ∧ usage ≠ ∅
             ∧ e = call_soon_threadsafe loop cb serial (print_name session) usage.
Proof.
  unfold notify_usage. case_bool_decide as Hne; [|by intros ?%not_elem_of_nil].
  destruct (_on_usage_logged t) as [cb|]; [|by intros ?%not_elem_of_nil].
  destruct (_loop t) as [loop|]; [|by intros ?%not_elem_of_nil].
  intros ->%list_elem_of_singleton. by exists loop, cb.
Qed.

(** C2. When [_on_print_end] finds an active session, the usage it
    reports (in its log record, and in the callback when one is scheduled)
    has an entry for a key exactly when the session's baseline has that
    key, the ending snapshot has a captured reading for it and the
    baseline is larger; the entry is then baseline minus current.  A
    baseline key without a non-null reading in the snapshot, or with a
    delta that is not positive, has no entry, whatever the other keys are;
    every entry is strictly positive; the function is total, so nothing is
    raised.  The captured readings are the non-null readings of the
    snapshot, the virtual tray under [(255, 0)] included. *)
Theorem on_print_end_slot_usage
    (serial : string) (state : PrinterState) (success : bool) (t : UsageTracker)
    (session : PrintSession) :
  _sessions t !! serial = Some session →
  ∃ tray_usage rest,
    (_on_print_end serial state success t).2
      = log_print_ended serial success (print_name session) tray_usage :: rest
    ∧ (∀ loop cb s n usage,
         call_soon_threadsafe loop cb s n usage ∈ rest → usage = tray_usage)
    ∧ (∀ key used,
         tray_usage !! key = Some used ↔
         ∃ start_remain end_remain,
           tray_remain_start session !! key = Some start_remain
           ∧ capture_remain state !! key = Some end_remain
           ∧ end_remain < start_remain
           ∧ used = start_remain - end_remain)
    ∧ (∀ key used, tray_usage !! key = Some used → 0 < used)
    ∧ (∀ key, (∀ v, ¬ has_reading state key v) → tray_usage !! key = None)
    ∧ (∀ key, is_Some (capture_remain state !! key) ↔ ∃ v, has_reading state key v).
Proof.
  intros Hactive. rewrite (on_print_end_active _ _ _ _ _ Hactive). simpl.
  eexists _, _. split; [reflexivity|].
  assert (Hchar : ∀ key used,
    compute_tray_usage session (capture_remain state) !! key = Some used ↔
    ∃ start_remain end_remain,
      tray_remain_start session !! key = Some start_remain
      ∧ capture_remain state !! key = Some end_remain
      ∧ end_remain < start_remain
      ∧ used = start_remain - end_remain).
  { intros key used. rewrite compute_tray_usage_lookup. unfold slot_delta. split.
    - intros H.
      destruct (tray_remain_start session !! key) as [s|]; [|done]. simpl in H.
      destruct (capture_remain state !! key) as [e|]; [|done]. simpl in H.
      destruct (e <? s) eqn:Hlt; [|done].
      apply Z.ltb_lt in Hlt. exists s, e. by simplify_eq.
    - intros (s & e & -> & -> & Hlt & ->). simpl.
      by apply Z.ltb_lt in Hlt as ->. }
  split; [|split; [exact Hchar|split; [|split]]].
  - intros loop cb s n usage Hin.
    apply elem_of_app in Hin as [Hin|Hin].
    + destruct (_ && _); [|by apply not_elem_of_nil in Hin].
      by apply list_elem_of_singleton in Hin.
    + apply notify_usage_carries in Hin as (? & ? & _ & _ & _ & Heq). by simplify_eq.
  - intros key used (s & e & _ & _ & Hlt & ->)%Hchar. lia.
  - intros key Hnone.
    destruct (compute_tray_usage session (capture_remain state) !! key) as [used|] eqn:Hu;
      [|done].
    apply Hchar in Hu as (s & e & _ & He & _). apply capture_remain_sound in He.
    by destruct (Hnone e).
  - intros key. split.
    + intros [v Hv]. exists v. by apply capture_remain_sound.
    + intros [v Hv]. by eapply capture_remain_complete.
Qed.

Lemma on_print_end_slot_usage_witness :
  ∃ tray_usage rest,
    (_on_print_end "P1" sample_end_state true (sample_tracker sample_baseline)).2
      = log_print_ended "P1" true "benchy" tray_usage :: rest
    ∧ tray_usage !! (0, 0) = Some 5
    ∧ tray_usage !! (0, 1) = None
    ∧ tray_usage !! VT_KEY = Some 10.
Proof.
  destruct (on_print_end_slot_usage "P1" sample_end_state true
              (sample_tracker sample_baseline) (sample_session sample_baseline))
    as (usage & rest & Heff & _ & Hchar & _ & Hnone & _).
  { reflexivity. }
  exists usage, rest. split; [exact Heff|]. split; [|split].
  - apply Hchar. exists 80, 75. vm_compute. tauto.
  - destruct (usage !! (0, 1)) as [used|] eqn:Hu; [|reflexivity].
    apply Hchar in Hu as (s & e & _ & He & _). vm_compute in He. discriminate.
  - apply Hchar. exists 50, 40. vm_compute. tauto.
Defined.

(** ** Notification of the usage callback *)

Lemma notify_usage_calls t serial session usage :
  filter is_call_soon (notify_usage t serial session usage)
  = notify_usage t serial session usage.
Proof.
  unfold notify_usage. case_bool_decide; [|done].
  destruct (_on_usage_logged t); [|done]. by destruct (_loop t).
Qed.

Lemma on_print_end_calls serial state success t session :
  _sessions t !! serial = Some session →
  filter is_call_soon (_on_print_end serial state success t).2
  = notify_usage t serial session (compute_tray_usage session (capture_remain state)).
Proof.
  intros Hactive. rewrite (on_print_end_active _ _ _ _ _ Hactive). simpl.
  rewrite filter_cons_False by (simpl; auto).
  rewrite filter_app, notify_usage_calls.
  by destruct (_ && _).
Qed.

(** C3, as stated: whenever an active session ends on a tracker that has
    a callback and a loop, the callback is scheduled.  It fails for a
    session whose only tracked tray still reads 80 at the end: the usage is
    empty and nothing is handed to the loop. *)
Lemma usage_callback_on_empty_usage_fails :
  ¬ (∀ serial state success t session cb loop,
       _sessions t !! serial = Some session →
       _on_usage_logged t = Some cb →
       _loop t = Some loop →
       ∃ usage,
         call_soon_threadsafe loop cb serial (print_name session) usage
         ∈ (_on_print_end serial state success t).2).
Proof.
  intros Hclaim.
  destruct (Hclaim "P1" sample_idle_end_state true
              (sample_tracker {[(0, 0) := 80]}) (sample_session {[(0, 0) := 80]})
              "on_usage_logged" 1%positive eq_refl eq_refl eq_refl) as [usage Hin].
  vm_compute in Hin.
  repeat (apply elem_of_cons in Hin as [Hin|Hin]; [discriminate Hin|]).
  by apply not_elem_of_nil in Hin.
Qed.

(** C3, amended.  At the end of an active session the callback is handed
    to the loop exactly when the computed usage is not empty and both a
    callback and a loop are set; it then carries the device, the job name
    and the usage.  With an empty usage nothing is scheduled: the end of
    the session is only logged, with its success flag and the empty
    usage. *)
Theorem on_print_end_notifies_nonempty_usage
    (serial : string) (state : PrinterState) (success : bool) (t : UsageTracker)
    (session : PrintSession) :
  _sessions t !! serial = Some session →
  let tray_usage := compute_tray_usage session (capture_remain state) in
  let effects := (_on_print_end serial state success t).2 in
  log_print_ended serial success (print_name session) tray_usage ∈ effects
  ∧ filter is_call_soon effects
    = match _on_usage_logged t, _loop t with
      | Some cb, Some loop =>
          if decide (tray_usage = ∅) then []
          else [call_soon_threadsafe loop cb serial (print_name session) tray_usage]
      | _, _ => []
      end
  ∧ (tray_usage = ∅ → filter is_call_soon effects = []).
Proof.
  intros Hactive tray_usage effects. subst effects.
  rewrite (on_print_end_calls _ _ _ _ _ Hactive). fold tray_usage.
  rewrite (on_print_end_active _ _ _ _ _ Hactive). simpl. fold tray_usage.
  split; [apply list_elem_of_here|].
  unfold notify_usage. split.
  - case_bool_decide; case_decide; try done;
      destruct (_on_usage_logged t); try done; by destruct (_loop t).
  - intros ->. by rewrite bool_decide_false by auto.
Qed.

Lemma on_print_end_notifies_nonempty_usage_witness :
  filter is_call_soon
    (_on_print_end "P1" sample_end_state true (sample_tracker sample_baseline)).2
  = [call_soon_threadsafe 1%positive "on_usage_logged" "P1" "benchy"
       (compute_tray_usage (sample_session sample_baseline) (capture_remain sample_end_state))]
  ∧ filter is_call_soon
      (_on_print_end "P1" sample_idle_end_state true (sample_tracker {[(0, 0) := 80]})).2
    = [].
Proof.
  split.
  - destruct (on_print_end_notifies_nonempty_usage "P1" sample_end_state true
                (sample_tracker sample_baseline) (sample_session sample_baseline) eq_refl)
      as (_ & Hcalls & _).
    rewrite Hcalls. simpl. rewrite decide_False; [reflexivity|].
    intros Hempty.
    assert (Hl : compute_tray_usage (sample_session sample_baseline)
                   (capture_remain sample_end_state) !! (0, 0) = Some 5)
      by (vm_compute; reflexivity).
    rewrite Hempty in Hl. discriminate Hl.
  - destruct (on_print_end_notifies_nonempty_usage "P1" sample_idle_end_state true
                (sample_tracker {[(0, 0) := 80]}) (sample_session {[(0, 0) := 80]}) eq_refl)
      as (_ & _ & Hempty).
    apply Hempty. vm_compute. reflexivity.
Defined.

(** ** Removal of the session *)

Lemma delete_absent_tracker serial t :
  _sessions t !! serial = None →
  {| _sessions := delete serial (_sessions t);
     _on_usage_logged := _on_usage_logged t;
     _loop := _loop t |} = t.
Proof. intros H. rewrite delete_id by done. by destruct t. Qed.

Lemma on_print_end_tracker serial state success t :
  (_on_print_end serial state success t).1
  = {| _sessions := delete serial (_sessions t);
       _on_usage_logged := _on_usage_logged t;
       _loop := _loop t |}.
Proof. unfold _on_print_end. by destruct (_sessions t !! serial). Qed.

Lemma on_print_end_inactive serial state success t :
  _sessions t !! serial = None →
  _on_print_end serial state success t = (t, [log_no_session serial]).
Proof.
  intros H. unfold _on_print_end. rewrite H. by rewrite delete_absent_tracker.
Qed.

Lemma on_state_update_end serial state prev_state t :
  ends_session state prev_state →
  ∃ success, on_state_update serial state prev_state t
             = _on_print_end serial state success t.
Proof.
  intros Hend.
  rewrite on_state_update_cases.
  unfold ends_session in Hend.
  repeat case_decide; try (exfalso; naive_solver); eauto.
Qed.

(** C10.  The tracker that [_on_print_end] returns is the one obtained
    by popping the device's session and nothing else: it does not depend
    on the usage computed, on the callback or on the loop, and the report
    and the notification are produced from that tracker, in which the
    session is already gone.  So after [_on_print_end], and after any
    update that [on_state_update] treats as the end of a session, the
    device has no session and the other devices keep theirs; when the
    device had no session the tracker is unchanged and nothing is
    reported or scheduled. *)
Theorem on_print_end_removes_session
    (serial : string) (state : PrinterState) (success : bool) (t : UsageTracker) :
  let r := _on_print_end serial state success t in
  r.1 = {| _sessions := delete serial (_sessions t);
           _on_usage_logged := _on_usage_logged t;
           _loop := _loop t |}
  ∧ _sessions r.1 !! serial = None
  ∧ (∀ other, other ≠ serial → _sessions r.1 !! other = _sessions t !! other)
  ∧ (∀ session, _sessions t !! serial = Some session →
       let tray_usage := compute_tray_usage session (capture_remain state) in
       r.2 = log_print_ended serial success (print_name session) tray_usage
             :: (if bool_decide (tray_usage = ∅)
                    && negb (bool_decide (tray_remain_start session = ∅))
                 then [log_usage_empty serial] else [])
             ++ notify_usage r.1 serial session tray_usage)
  ∧ (_sessions t !! serial = None →
       r.1 = t ∧ filter is_call_soon r.2 = [] ∧ filter is_lifecycle_record r.2 = [])
  ∧ (∀ prev_state, ends_session state prev_state →
       let r' := on_state_update serial state prev_state t in
       _sessions r'.1 !! serial = None
       ∧ (_sessions t !! serial = None → r'.1 = t ∧ filter is_call_soon r'.2 = [])).
Proof.
  intros r. subst r. rewrite on_print_end_tracker.
  split; [done|]. split; [apply lookup_delete_eq|].
  split; [intros other Hne; simpl; by rewrite lookup_delete_ne|].
  split; [|split].
  - intros session Hactive tray_usage.
    by rewrite (on_print_end_active _ _ _ _ _ Hactive).
  - intros Hnone. rewrite (on_print_end_inactive _ _ _ _ Hnone).
    by rewrite delete_absent_tracker.
  - intros prev_state Hend r'. subst r'.
    destruct (on_state_update_end serial state prev_state t Hend) as [b ->].
    rewrite on_print_end_tracker. split; [apply lookup_delete_eq|].
    intros Hnone. rewrite delete_absent_tracker by done.
    by rewrite (on_print_end_inactive _ _ _ _ Hnone).
Qed.

Lemma on_print_end_removes_session_witness :
  _sessions (on_state_update "P1" sample_end_state
               (Some (sample_state "RUNNING" [] None))
               (sample_tracker sample_baseline)).1 !! "P1" = None
  ∧ (on_state_update "P2" sample_end_state
       (Some (sample_state "PAUSE" [] None)) (sample_tracker sample_baseline)).1
    = sample_tracker sample_baseline.
Proof.
  split.
  - destruct (on_print_end_removes_session "P1" sample_end_state true
                (sample_tracker sample_baseline)) as (_ & _ & _ & _ & _ & Hend).
    apply (Hend (Some (sample_state "RUNNING" [] None))).
    left. split; [by left|reflexivity].
  - destruct (on_print_end_removes_session "P2" sample_end_state true
                (sample_tracker sample_baseline)) as (_ & _ & _ & _ & _ & Hend).
    apply (Hend (Some (sample_state "PAUSE" [] None))).
    + right. split; reflexivity.
    + reflexivity.
Defined.

(* ===================================================================== *)
(** * Properties of the weight estimate *)
(* ===================================================================== *)

Lemma shr_1_nonneg mrs : 0 ≤ shr_m mrs → 0 ≤ shr_m (shr_1 mrs).
Proof.
  destruct mrs as [m r s]. simpl. intros Hm.
  destruct m as [|p|p]; [done| |lia].
  destruct p; simpl; lia.
Qed.

Lemma iter_shr_1_nonneg n : ∀ mrs,
  0 ≤ shr_m mrs → 0 ≤ shr_m (iter_pos shr_1 n mrs).
Proof.
  induction n as [n IH|n IH|]; intros mrs Hm; simpl.
  - by apply IH, IH, shr_1_nonneg.
  - by apply IH, IH.
  - by apply shr_1_nonneg.
Qed.

Lemma shr_fexp_nonneg m e l :
  0 ≤ m → 0 ≤ shr_m (shr_fexp PREC EMAX m e l).1.
Proof.
  intros Hm. unfold shr_fexp, shr.
  assert (0 ≤ shr_m (shr_record_of_loc m l)) as Hrec.
  { destruct l as [|[]]; simpl; done. }
  destruct (fexp PREC EMAX (Zdigits2 m + e) - e); simpl; try done.
  by apply iter_shr_1_nonneg.
Qed.

Lemma round_nearest_even_nonneg m l : 0 ≤ m → 0 ≤ round_nearest_even m l.
Proof.
  intros Hm. unfold round_nearest_even.
  destruct l as [|[]]; try done; [destruct (Z.even m)|]; lia.
Qed.

(** Rounding a non-negative mantissa never gives NaN. *)
Lemma binary_round_aux_not_nan sx mx ex lx :
  0 ≤ mx → binary_round_aux PREC EMAX sx mx ex lx ≠ S754_nan.
Proof.
  intros Hm. unfold binary_round_aux.
  pose proof (shr_fexp_nonneg mx ex lx Hm) as H1.
  destruct (shr_fexp PREC EMAX mx ex lx) as [mrs' e']. simpl in H1.
  pose proof (shr_fexp_nonneg
                (round_nearest_even (shr_m mrs') (loc_of_shr_record mrs')) e' loc_Exact
                (round_nearest_even_nonneg _ _ H1)) as H2.
  destruct (shr_fexp PREC EMAX _ e' loc_Exact) as [mrs'' e'']. simpl in H2.
  destruct (shr_m mrs'') as [|p|p]; [done| |lia].
  by destruct (e'' <=? EMAX - PREC).
Qed.

Lemma binary_round_aux_sign sx mx ex lx f :
  binary_round_aux PREC EMAX sx mx ex lx = f →
  match f with
  | S754_zero s | S754_infinity s | S754_finite s _ _ => s = sx
  | S754_nan => True
  end.
Proof.
  unfold binary_round_aux.
  destruct (shr_fexp PREC EMAX mx ex lx) as [mrs' e'].
  destruct (shr_fexp PREC EMAX _ e' loc_Exact) as [mrs'' e''].
  destruct (shr_m mrs'') as [|p|p]; [by intros <-| |by intros <-].
  destruct (e'' <=? EMAX - PREC); by intros <-.
Qed.

(** A converted integer is a zero or a finite number with the sign of the
    integer. *)
Lemma float_of_int_finite n f :
  float_of_int n = Some f →
  (∃ s, f = S754_zero s ∧ (0 ≤ n → s = false))
  ∨ (∃ s m e, f = S754_finite s m e ∧ (0 ≤ n → s = false)).
Proof.
  unfold float_of_int, binary_normalize, binary_round.
  destruct n as [|p|p].
  - intros [= <-]. left. by exists false.
  - destruct (shl_align p 0 _) as [mz ez].
    pose proof (binary_round_aux_not_nan false (Z.pos mz) ez loc_Exact) as Hnan.
    pose proof (binary_round_aux_sign false (Z.pos mz) ez loc_Exact _ eq_refl) as Hs.
    destruct (binary_round_aux PREC EMAX false (Z.pos mz) ez loc_Exact) as [s|s| |s m e];
      intros [= <-].
    + left. by exists s.
    + by destruct Hnan.
    + right. by exists s, m, e.
  - destruct (shl_align p 0 _) as [mz ez].
    pose proof (binary_round_aux_not_nan true (Z.pos mz) ez loc_Exact) as Hnan.
    destruct (binary_round_aux PREC EMAX true (Z.pos mz) ez loc_Exact) as [s|s| |s m e];
      intros [= <-].
    + left. exists s. split; [done|lia].
    + by destruct Hnan.
    + right. exists s, m, e. split; [done|lia].
Qed.

Lemma binary_normalize_not_nan m e szero :
  binary_normalize PREC EMAX m e szero ≠ S754_nan.
Proof.
  unfold binary_normalize, binary_round.
  destruct m as [|p|p]; [done| |];
    destruct (shl_align _ _ _) as [mz ez]; apply binary_round_aux_not_nan; lia.
Qed.

(** The difference of two clock readings is a number. *)
Lemma float_sub_clock_not_nan x y :
  is_clock_reading x = true → is_clock_reading y = true →
  float_sub x y ≠ S754_nan.
Proof.
  destruct x as [| | |[] mx ex]; try done.
  destruct y as [| | |[] my ey]; try done.
  intros _ _. unfold float_sub, SFsub. apply binary_normalize_not_nan.
Qed.

(** On numbers, [not (x < 10)] is [10 <= x]. *)
Lemma float_not_lt_timeout x :
  x ≠ S754_nan →
  negb (float_lt x DISPLAY_TIMEOUT_SEC) = float_le DISPLAY_TIMEOUT_SEC x.
Proof.
  unfold float_lt, float_le, SFltb, SFleb, DISPLAY_TIMEOUT_SEC.
  remember 5629499534213120%positive as mt eqn:Hmt.
  remember (-49) as et eqn:Het. clear Hmt Het. intros Hx.
  destruct x as [s|s| |s m e]; [destruct s; reflexivity|destruct s; reflexivity|done|].
  destruct s; [done|]. cbn [SFcompare].
  rewrite (Z.compare_antisym e et).
  destruct (e ?= et); cbn [CompOpp negb]; try done.
  pose proof (Pos.compare_cont_antisym m mt Eq) as Hanti.
  change (CompOpp Eq) with Eq in Hanti. rewrite <- Hanti.
  by destruct (Pos.compare_cont Eq m mt).
Qed.

Lemma clock_reading_nonzero t :
  is_clock_reading t = true → float_eq t FLOAT_0 = false.
Proof. destruct t as [| | |[] m e]; done. Qed.

(** C8, as stated: for [remain_percent_used = 0] the result is [0.0]
    for every [label_weight].  It fails for the integer [2^1024], which no
    float can hold: the conversion of the weight raises [OverflowError] and
    there is no result. *)
Lemma estimate_zero_percent_every_weight_fails :
  ¬ (∀ label_weight core_weight,
       ∃ grams,
         estimate_weight_from_percent 0 label_weight core_weight = Some grams
         ∧ float_eq grams FLOAT_0 = true).
Proof.
  intros Hclaim. destruct (Hclaim (2 ^ 1024) 250) as (grams & Hgrams & _).
  vm_compute in Hgrams. discriminate Hgrams.
Qed.

(** C8, amended.  [estimate_weight_from_percent] is the float product
    [(remain_percent_used / 100.0) * label_weight], with the integer
    arguments converted as Python converts them; it is the same for every
    [core_weight]; for [remain_percent_used = 0] it is a zero, equal to
    [0.0], for every [label_weight] that a float can hold ([0.0] itself
    when the weight is not negative); and for a [label_weight] that no
    float can hold the call raises, whatever the percentage. *)
Theorem estimate_weight_from_percent_formula
    (remain_percent_used label_weight core_weight : Z) :
  estimate_weight_from_percent remain_percent_used label_weight core_weight
  = (p ← float_of_int remain_percent_used;
     w ← float_of_int label_weight;
     Some (SFmul PREC EMAX (SFdiv PREC EMAX p FLOAT_100) w))
  ∧ FLOAT_100 = binary_normalize PREC EMAX 100 0 false
  ∧ (∀ other_core_weight,
       estimate_weight_from_percent remain_percent_used label_weight other_core_weight
       = estimate_weight_from_percent remain_percent_used label_weight core_weight)
  ∧ (∀ w, float_of_int label_weight = Some w →
       ∃ sign,
         estimate_weight_from_percent 0 label_weight core_weight = Some (S754_zero sign)
         ∧ float_eq (S754_zero sign) (S754_zero false) = true
         ∧ (0 ≤ label_weight → sign = false))
  ∧ (float_of_int label_weight = None →
       estimate_weight_from_percent remain_percent_used label_weight core_weight = None).
Proof.
  split; [reflexivity|]. split; [reflexivity|]. split; [reflexivity|]. split.
  - intros w Hw. unfold estimate_weight_from_percent. rewrite Hw. simpl.
    apply float_of_int_finite in Hw as [(s & -> & Hs)|(s & m & e & -> & Hs)];
      exists s; simpl; by destruct s.
  - intros Hw. unfold estimate_weight_from_percent. rewrite Hw.
    by destruct (float_of_int remain_percent_used).
Qed.

Lemma estimate_weight_from_percent_formula_witness :
  estimate_weight_from_percent 0 1000 250 = Some (S754_zero false)
  ∧ estimate_weight_from_percent 5 1000 250
    = Some (S754_finite false 7036874417766400 (-47)).
Proof.
  split; [|vm_compute; reflexivity].
  destruct (estimate_weight_from_percent_formula 0 1000 250) as (_ & _ & _ & Hzero & _).
  destruct (Hzero (S754_finite false 8796093022208000 (-43))) as (sign & -> & _ & Hsign).
  - vm_compute. reflexivity.
  - f_equal. f_equal. apply Hsign. lia.
Defined.

(* ===================================================================== *)
(** * Properties of the display monitor *)
(* ===================================================================== *)

(** C7.  The pending command is one slot: [queue_display_command]
    stores its argument whatever the slot held, so of two commands queued
    in a row only the second is kept; [pop_display_command] returns the
    content of the slot, [None] when it is empty, and leaves it empty.
    Neither touches the other display variables.  Queuing ["reboot"] then
    ["update"] and popping twice gives ["update"], then [None]. *)
Theorem display_command_mailbox (d : Display) (first command : string) :
  _display_pending_command (queue_display_command command d) = Some command
  ∧ queue_display_command command (queue_display_command first d)
    = queue_display_command command d
  ∧ (pop_display_command d).1 = _display_pending_command d
  ∧ _display_pending_command (pop_display_command d).2 = None
  ∧ (pop_display_command (pop_display_command d).2).1 = None
  ∧ (pop_display_command (queue_display_command command d))
    = (Some command, (pop_display_command d).2)
  ∧ (let queued := queue_display_command "update" (queue_display_command "reboot" d) in
     (pop_display_command queued).1 = Some "update"
     ∧ (pop_display_command (pop_display_command queued).2).1 = None)
  ∧ (_display_last_seen (queue_display_command command d),
     _display_connected (queue_display_command command d),
     _display_firmware_version (queue_display_command command d),
     _device_update_available (queue_display_command command d))
    = (_display_last_seen d, _display_connected d,
       _display_firmware_version d, _device_update_available d)
  ∧ (_display_last_seen (pop_display_command d).2,
     _display_connected (pop_display_command d).2,
     _display_firmware_version (pop_display_command d).2,
     _device_update_available (pop_display_command d).2)
    = (_display_last_seen d, _display_connected d,
       _display_firmware_version d, _device_update_available d).
Proof. repeat split. Qed.

(** A connected display has been seen: its last heartbeat is a clock
    reading, not the initial [0]. *)
Lemma display_connected_seen d :
  display_reachable d →
  _display_connected d = true → is_clock_reading (_display_last_seen d) = true.
Proof.
  induction 1 as [|loop now d Hnow _ _|now version ua d Hnow _ _
                  |json now d hub _ IH|cmd d _ IH|d _ IH].
  - done.
  - by intros _.
  - intros _. unfold display_heartbeat. simpl.
    by destruct (truthy version), ua.
  - unfold check_display_timeout_step.
    destruct (_display_connected d && negb (is_display_connected now d)) eqn:E.
    + done.
    + exact IH.
  - exact IH.
  - exact IH.
Qed.

Lemma timed_out_iff now d :
  is_clock_reading (_display_last_seen d) = true →
  is_clock_reading now = true →
  negb (is_display_connected now d)
  = float_le DISPLAY_TIMEOUT_SEC (float_sub now (_display_last_seen d)).
Proof.
  intros Hseen Hnow. unfold is_display_connected.
  rewrite (clock_reading_nonzero _ Hseen).
  apply float_not_lt_timeout. by apply float_sub_clock_not_nan.
Qed.

Lemma check_display_timeout_sleeps json_dumps readings : ∀ st,
  (check_display_timeout json_dumps readings st).2
  = replicate (length readings) (asyncio_sleep 2).
Proof.
  induction readings as [|now later IH]; intros st; [done|].
  cbn [check_display_timeout]. specialize (IH (check_display_timeout_step json_dumps now st)).
  destruct (check_display_timeout json_dumps later _) as [final effects].
  simpl in *. by rewrite IH.
Qed.

Lemma check_display_timeout_cons json_dumps now later st :
  (check_display_timeout json_dumps (now :: later) st).1
  = (check_display_timeout json_dumps later
       (check_display_timeout_step json_dumps now st)).1.
Proof.
  cbn [check_display_timeout].
  by destruct (check_display_timeout json_dumps later _).
Qed.

(** C6.  In every reachable state of the display variables: a heartbeat
    at time [now] stores [now] as the last heartbeat, leaves the display
    connected and schedules the broadcast of [device_connected] exactly
    when the display was disconnected before; a timeout check that reads
    the clock [now] marks the display disconnected and broadcasts
    [device_disconnected], once, exactly when the display is connected and
    [now - last heartbeat >= 10] (the float difference of the two
    readings), and otherwise changes nothing and sends nothing, in
    particular when the display is already disconnected or has never sent
    a heartbeat.  Every round of the checking loop sleeps once, for 2
    seconds, and then makes one check.  The heartbeat endpoint, whatever
    version and update flag it is given, does to the last heartbeat, the
    connected flag and [device_connected] what is said above. *)
Theorem display_liveness_machine
    (json_dumps : Message → string) (d : Display) (hub : Hub) (now : spec_float) :
  display_reachable d →
  is_clock_reading now = true →
  (let r := update_display_heartbeat true now d in
   _display_last_seen r.1 = now
   ∧ _display_connected r.1 = true
   ∧ r.2 = if _display_connected d then [] else [create_task_broadcast device_connected])
  ∧ (let r := check_display_timeout_step json_dumps now (d, hub) in
     let late := float_le DISPLAY_TIMEOUT_SEC (float_sub now (_display_last_seen d)) in
     (_display_connected d = true ∧ late = true →
        r = (mark_disconnected d, broadcast_message json_dumps device_disconnected hub))
     ∧ (¬ (_display_connected d = true ∧ late = true) → r = (d, hub))
     ∧ (_display_connected d = false → r = (d, hub))
     ∧ (float_eq (_display_last_seen d) FLOAT_0 = true → r = (d, hub)))
  ∧ (∀ readings,
       (check_display_timeout json_dumps readings (d, hub)).2
       = replicate (length readings) (asyncio_sleep 2))
  ∧ (∀ first later,
       (check_display_timeout json_dumps (first :: later) (d, hub)).1
       = (check_display_timeout json_dumps later
            (check_display_timeout_step json_dumps first (d, hub))).1)
  ∧ (∀ version update_available,
       let r := display_heartbeat now version update_available d in
       _display_last_seen r.1.2 = now
       ∧ _display_connected r.1.2 = true
       ∧ (create_task_broadcast device_connected ∈ r.2 ↔ _display_connected d = false)).
Proof.
  intros Hreach Hnow. split; [|split; [|split; [|split]]]; cycle 4.
  { intros version ua. unfold display_heartbeat. simpl.
    destruct (truthy version), ua as [ua|], (_display_connected d); simpl;
      (split; [done|split; [done|]]);
      try case_bool_decide; simpl;
      rewrite ?elem_of_cons, ?elem_of_nil; split; intros; try done;
      intuition congruence. }
  - simpl. by destruct (_display_connected d).
  - pose proof (display_connected_seen d Hreach) as Hseen.
    assert (Hoff : _display_connected d = false →
                   check_display_timeout_step json_dumps now (d, hub) = (d, hub)).
    { intros Hoff. unfold check_display_timeout_step. by rewrite Hoff. }
    cbv zeta. split; [|split; [|split]].
    + intros [Hon Hlate]. unfold check_display_timeout_step.
      by rewrite Hon, (timed_out_iff now d (Hseen Hon) Hnow), Hlate.
    + intros Hnot. destruct (_display_connected d) eqn:Hon; [|by apply Hoff].
      unfold check_display_timeout_step.
      rewrite Hon, (timed_out_iff now d (Hseen eq_refl) Hnow). simpl.
      destruct (float_le _ _) eqn:Hlate; [|done]. by destruct Hnot.
    + exact Hoff.
    + intros Hunset. apply Hoff.
      destruct (_display_connected d) eqn:Hon; [|done].
      by rewrite (clock_reading_nonzero _ (Hseen eq_refl)) in Hunset.
  - intros readings. apply check_display_timeout_sleeps.
  - intros first later. apply check_display_timeout_cons.
Qed.

Lemma display_liveness_machine_witness :
  display_reachable sample_display
  ∧ check_display_timeout_step sample_dumps (sample_time 110) (sample_display, sample_hub)
    = (mark_disconnected sample_display,
       broadcast_message sample_dumps device_disconnected sample_hub)
  ∧ check_display_timeout_step sample_dumps (sample_time 109) (sample_display, sample_hub)
    = (sample_display, sample_hub).
Proof.
  assert (Hreach : display_reachable sample_display).
  { apply (reach_heartbeat true (sample_time 100) display_init);
      [reflexivity|apply reach_init]. }
  split; [exact Hreach|].
  destruct (display_liveness_machine sample_dumps sample_display sample_hub
              (sample_time 110) Hreach eq_refl) as (_ & (Hfire & _) & _).
  destruct (display_liveness_machine sample_dumps sample_display sample_hub
              (sample_time 109) Hreach eq_refl) as (_ & (_ & Hquiet & _) & _).
  split.
  - apply Hfire. split; reflexivity.
  - apply Hquiet. intros [_ Hlate]. vm_compute in Hlate. discriminate Hlate.
Defined.

(* ===================================================================== *)
(** * Properties of the WebSocket registry *)
(* ===================================================================== *)

Section BroadcastProofs.
Variable json_dumps : Message → string.

Lemma send_text_closed ws text net :
  ws ∈ closed net → send_text ws text net = None.
Proof. intros H. unfold send_text. by rewrite bool_decide_true. Qed.

Lemma send_text_open ws text net :
  ws ∉ closed net →
  ∃ net', send_text ws text net = Some net'
          ∧ closed net' = closed net
          ∧ ∀ ws', received net' ws'
                   = if decide (ws' = ws) then received net ws ++ [text]
                     else received net ws'.
Proof.
  intros H. unfold send_text. rewrite bool_decide_false by done.
  eexists. split; [reflexivity|]. split; [done|].
  intros ws'. unfold received at 1. simpl. case_decide as Heq.
  - subst ws'. by rewrite lookup_insert_eq.
  - by rewrite lookup_insert_ne.
Qed.

(** The loop of [broadcast_message] over clients that are all different. *)
Lemma broadcast_loop text (clients : list WebSocket) :
  NoDup clients →
  ∀ disconnected net,
    let r := foldl (broadcast_step text) (disconnected, net) clients in
    closed r.2 = closed net
    ∧ (∀ ws, ws ∈ r.1 ↔ ws ∈ disconnected ∨ (ws ∈ clients ∧ ws ∈ closed net))
    ∧ (∀ ws, received r.2 ws
             = if decide (ws ∈ clients ∧ ws ∉ closed net)
               then received net ws ++ [text] else received net ws).
Proof.
  induction 1 as [|ws0 rest Hfresh Hnodup IH]; intros disconnected net.
  - cbv zeta. cbn [foldl fst snd]. split; [done|]. split.
    + intros ws. split; [by left|]. intros [?|[Hin _]]; [done|].
      by apply not_elem_of_nil in Hin.
    + intros ws. rewrite decide_False; [done|]. intros [Hin _].
      by apply not_elem_of_nil in Hin.
  - cbv zeta. cbn [foldl broadcast_step].
    destruct (decide (ws0 ∈ closed net)) as [Hclosed|Hopen].
    + rewrite (send_text_closed _ _ _ Hclosed).
      destruct (IH ({[ws0]} ∪ disconnected) net) as (Hc & Hd & Hr).
      split; [exact Hc|]. split.
      * intros ws. rewrite Hd, elem_of_union, elem_of_singleton, elem_of_cons.
        naive_solver.
      * intros ws. rewrite Hr.
        destruct (decide (ws = ws0)) as [->|Hne].
        -- rewrite !decide_False; [done|tauto|tauto].
        -- apply decide_ext. rewrite elem_of_cons. tauto.
    + destruct (send_text_open ws0 text net Hopen) as (net1 & -> & Hc1 & Hr1).
      destruct (IH disconnected net1) as (Hc & Hd & Hr).
      split; [by rewrite Hc|]. split.
      * intros ws. rewrite Hd, Hc1, elem_of_cons. split.
        -- intros [?|[? ?]]; tauto.
        -- intros [?|[[->|?] ?]]; tauto.
      * intros ws. rewrite Hr, Hc1, (Hr1 ws).
        destruct (decide (ws = ws0)) as [->|Hne].
        -- rewrite (decide_False (P := ws0 ∈ rest ∧ _)) by tauto.
           rewrite decide_True; [done|]. split; [apply list_elem_of_here|done].
        -- apply decide_ext. rewrite elem_of_cons. tauto.
Qed.

Lemma broadcast_message_spec message hub :
  let hub' := broadcast_message json_dumps message hub in
  closed (transport hub') = closed (transport hub)
  ∧ (∀ ws, ws ∈ websocket_clients hub'
           ↔ ws ∈ websocket_clients hub ∧ ws ∉ closed (transport hub))
  ∧ (∀ ws, received (transport hub') ws
           = if decide (ws ∈ websocket_clients hub ∧ ws ∉ closed (transport hub))
             then received (transport hub) ws ++ [json_dumps message]
             else received (transport hub) ws).
Proof.
  unfold broadcast_message. case_bool_decide as Hempty.
  - simpl. rewrite Hempty. split; [done|]. split.
    + intros ws. set_solver.
    + intros ws. rewrite decide_False; [done|]. set_solver.
  - pose proof (broadcast_loop (json_dumps message) (elements (websocket_clients hub))
                  (NoDup_elements _) ∅ (transport hub)) as Hloop.
    destruct (foldl _ _ _) as [disconnected net]. simpl in *.
    destruct Hloop as (Hc & Hd & Hr). split; [exact Hc|]. split.
    + intros ws. rewrite elem_of_difference, Hd, elem_of_elements. set_solver.
    + intros ws. rewrite Hr.
      repeat case_decide; try done; exfalso;
        rewrite elem_of_elements in *; naive_solver.
Qed.

(** C4.  [broadcast_message] tries every registered client on its
    own: a client whose [send_text] succeeds gets the serialized
    message, once, whatever happens with the others; a client whose
    [send_text] raises, or that is not registered, gets nothing; after
    the loop the registry holds the former clients except those whose
    send raised.  With three clients of which only the second fails, the
    first and the third have the message and are the registry
    afterwards. *)
Theorem broadcast_message_isolates_failures (message : Message) (hub : Hub) :
  let hub' := broadcast_message json_dumps message hub in
  (∀ ws, ws ∈ websocket_clients hub'
         ↔ ws ∈ websocket_clients hub ∧ ws ∉ closed (transport hub))
  ∧ (∀ ws, ws ∈ websocket_clients hub → ws ∉ closed (transport hub) →
       received (transport hub') ws
       = received (transport hub) ws ++ [json_dumps message])
  ∧ (∀ ws, ws ∉ websocket_clients hub ∨ ws ∈ closed (transport hub) →
       received (transport hub') ws = received (transport hub) ws)
  ∧ (∀ first second third,
       websocket_clients hub = {[first; second; third]} →
       first ∉ closed (transport hub) →
       second ∈ closed (transport hub) →
       third ∉ closed (transport hub) →
       websocket_clients hub' = {[first; third]}
       ∧ received (transport hub') first
         = received (transport hub) first ++ [json_dumps message]
       ∧ received (transport hub') third
         = received (transport hub) third ++ [json_dumps message]
       ∧ received (transport hub') second = received (transport hub) second).
Proof.
  intros hub'. destruct (broadcast_message_spec message hub) as (_ & Hreg & Hrecv).
  fold hub' in Hreg, Hrecv.
  assert (Hgot : ∀ ws, ws ∈ websocket_clients hub → ws ∉ closed (transport hub) →
            received (transport hub') ws
            = received (transport hub) ws ++ [json_dumps message]).
  { intros ws Hin Hopen. rewrite Hrecv. by rewrite decide_True. }
  assert (Hmiss : ∀ ws, ws ∉ websocket_clients hub ∨ ws ∈ closed (transport hub) →
            received (transport hub') ws = received (transport hub) ws).
  { intros ws Hout. rewrite Hrecv. rewrite decide_False; [done|]. tauto. }
  split; [exact Hreg|]. split; [exact Hgot|]. split; [exact Hmiss|].
  intros a b c Hset Ha Hb Hc. split; [|split; [|split]].
  - apply set_eq. intros ws. rewrite Hreg, Hset. set_solver.
  - apply Hgot; [|done]. rewrite Hset. set_solver.
  - apply Hgot; [|done]. rewrite Hset. set_solver.
  - apply Hmiss. by right.
Qed.

(** C5, amended.  [websocket_endpoint] adds the client to the
    registry before it sends the initial state, and a failure of that
    send is only logged: the client is registered afterwards whether the
    send succeeded or not.  When the send failed nothing was delivered;
    the client leaves the registry at the next broadcast whose send to it
    fails, which delivers nothing to it either, or when its handler
    ends. *)
Theorem websocket_open_registers_before_send
    (now : spec_float) (d : Display) (printers : gmap string bool)
    (websocket : WebSocket) (hub : Hub) :
  let hub' := websocket_endpoint_open json_dumps now d printers websocket hub in
  let text := json_dumps (initial_state (is_display_connected now d)
                            (_device_update_available d) printers) in
  websocket_clients hub' = {[websocket]} ∪ websocket_clients hub
  ∧ websocket ∈ websocket_clients hub'
  ∧ (websocket ∉ closed (transport hub) →
       received (transport hub') websocket
       = received (transport hub) websocket ++ [text])
  ∧ (websocket ∈ closed (transport hub) →
       transport hub' = transport hub
       ∧ ∀ message,
           let hub'' := broadcast_message json_dumps message hub' in
           (websocket ∉ websocket_clients hub'')
           ∧ received (transport hub'') websocket
             = received (transport hub) websocket)
  ∧ websocket ∉ websocket_clients (websocket_endpoint_finally websocket hub').
Proof.
  intros hub' text.
  assert (Hreg : websocket_clients hub' = {[websocket]} ∪ websocket_clients hub).
  { subst hub'. unfold websocket_endpoint_open. by destruct (send_text _ _ _). }
  split; [exact Hreg|]. split; [rewrite Hreg; set_solver|].
  split; [|split].
  - intros Hopen. subst hub'. unfold websocket_endpoint_open.
    destruct (send_text_open websocket text (transport hub) Hopen)
      as (net' & Hsend & _ & Hr).
    fold text. rewrite Hsend. simpl. rewrite Hr. by rewrite decide_True.
  - intros Hclosed.
    assert (Hnet : transport hub' = transport hub).
    { subst hub'. unfold websocket_endpoint_open.
      by rewrite (send_text_closed _ _ _ Hclosed). }
    split; [exact Hnet|]. intros message hub''.
    destruct (broadcast_message_spec message hub') as (_ & Hreg' & Hrecv).
    fold hub'' in Hreg', Hrecv. split.
    + rewrite Hreg', Hnet. tauto.
    + rewrite Hrecv, Hnet. rewrite decide_False; [done|]. tauto.
  - unfold websocket_endpoint_finally. simpl. set_solver.
Qed.
End BroadcastProofs.

Lemma broadcast_message_isolates_failures_witness :
  let hub' := broadcast_message sample_dumps tag_removed sample_hub3 in
  websocket_clients hub' = {[1%positive; 3%positive]}
  ∧ received (transport hub') 1%positive = ["tag_removed"]
  ∧ received (transport hub') 3%positive = ["tag_removed"]
  ∧ received (transport hub') 2%positive = [].
Proof.
  destruct (broadcast_message_isolates_failures sample_dumps tag_removed sample_hub3)
    as (_ & _ & _ & Hthree).
  apply (Hthree 1%positive 2%positive 3%positive).
  - reflexivity.
  - simpl. set_solver.
  - simpl. set_solver.
  - simpl. set_solver.
Defined.

(** C5, as stated: when the initial send fails the client is not in the
    registry after the registration.  It fails for a client whose
    connection is already broken when it registers: the client is in the
    registry although the send raised. *)
Lemma failed_initial_send_not_registered_fails :
  ¬ (∀ (json_dumps : Message → string) now d printers websocket hub,
       send_text websocket
         (json_dumps (initial_state (is_display_connected now d)
                        (_device_update_available d) printers))
         (transport hub) = None →
       websocket ∉ websocket_clients
                     (websocket_endpoint_open json_dumps now d printers websocket hub)).
Proof.
  intros Hclaim.
  apply (Hclaim sample_dumps FLOAT_100 display_init ∅ 2%positive sample_closed_hub).
  - reflexivity.
  - vm_compute. set_solver.
Qed.

Lemma websocket_open_registers_before_send_witness :
  let hub' := websocket_endpoint_open sample_dumps FLOAT_100 display_init ∅
                2%positive sample_closed_hub in
  2%positive ∈ websocket_clients hub'
  ∧ (2%positive ∉ websocket_clients (broadcast_message sample_dumps tag_removed hub'))
  ∧ received (transport (broadcast_message sample_dumps tag_removed hub')) 2%positive = [].
Proof.
  destruct (websocket_open_registers_before_send sample_dumps FLOAT_100 display_init ∅
              2%positive sample_closed_hub) as (_ & Hin & _ & Hfailed & _).
  split; [exact Hin|].
  destruct Hfailed as [_ Hlater]; [simpl; set_solver|].
  exact (Hlater tag_removed).
Defined.

(* ===================================================================== *)
(** * Properties of the printer callbacks *)
(* ===================================================================== *)

Lemma on_print_start_other serial state t other :
  other ≠ serial →
  _sessions (_on_print_start serial state t).1 !! other = _sessions t !! other.
Proof. intros Hne. simpl. by rewrite lookup_insert_ne. Qed.

Lemma on_print_end_other serial state success t other :
  other ≠ serial →
  _sessions (_on_print_end serial state success t).1 !! other = _sessions t !! other.
Proof. intros Hne. rewrite on_print_end_tracker. simpl. by rewrite lookup_delete_ne. Qed.

(** An update changes the session of a device only when it is an update
    of that device that starts or ends a session. *)
Lemma on_state_update_session_change serial' state prev_state t serial :
  _sessions (on_state_update serial' state prev_state t).1 !! serial
    ≠ _sessions t !! serial →
  serial' = serial
  ∧ (starts_session state prev_state ∨ ends_session state prev_state).
Proof.
  rewrite on_state_update_cases. unfold starts_session, ends_session.
  destruct (decide (serial' = serial)) as [->|Hne].
  - intros Hchange. split; [done|].
    repeat case_decide; first [ tauto | by destruct Hchange ].
  - intros Hchange. exfalso. apply Hchange.
    repeat case_decide;
      first [ by apply on_print_start_other
            | by apply on_print_end_other
            | done ].
Qed.

Lemma on_printer_state_update_tracker running_loop serial state app :
  usage_tracker (on_printer_state_update running_loop serial state app).1
  = (on_state_update serial state (_previous_states app !! serial) (usage_tracker app)).1.
Proof.
  unfold on_printer_state_update. by destruct (on_state_update _ _ _ _).
Qed.

Lemma on_printer_state_update_previous running_loop serial state app :
  _previous_states (on_printer_state_update running_loop serial state app).1
  = <[serial := state]> (_previous_states app).
Proof.
  unfold on_printer_state_update. by destruct (on_state_update _ _ _ _).
Qed.

(** C9, as stated: after a disconnect the session stays until a later
    running observation overwrites it or a running-to-terminal transition
    ends it; after the reconnect both need a snapshot that reports
    ["RUNNING"].  It fails when the device reports ["PAUSE"] and then
    ["FINISH"] after the reconnect: the session is gone and no snapshot was
    a running one. *)
Lemma session_kept_until_running_fails :
  ¬ (∀ running_loop serial states app,
       let reconnected := (on_printer_disconnect running_loop serial app).1 in
       let final := replay_updates running_loop serial states reconnected in
       _sessions (usage_tracker final) !! serial
         ≠ _sessions (usage_tracker app) !! serial →
       ∃ state, state ∈ states ∧ gcode_state state = Some "RUNNING").
Proof.
  intros Hclaim.
  destruct (Hclaim false "P1"
              [sample_state "PAUSE" [] None; sample_state "FINISH" [] None] sample_app)
    as (state & Hin & Hrun).
  - vm_compute. discriminate.
  - apply elem_of_cons in Hin as [->|Hin]; [discriminate Hrun|].
    apply elem_of_cons in Hin as [->|Hin]; [discriminate Hrun|].
    by apply not_elem_of_nil in Hin.
Qed.

(** C9, amended.  [on_printer_disconnect] removes the cached previous
    snapshot of the device and nothing else: the tracker, with its
    sessions, and the snapshots of the other devices are unchanged.  The
    next snapshot of the device is therefore compared with no previous
    snapshot, and when it is not a running one it leaves the tracker
    unchanged, so a terminal snapshot right after the reconnect does not
    end the session.  Afterwards the session of a device changes only at
    an update of that device that starts a session (running after
    something else) or ends one (finished or idle after running, or
    finished after paused). *)
Theorem on_printer_disconnect_keeps_session
    (running_loop : bool) (serial : string) (app : App) :
  let reconnected := (on_printer_disconnect running_loop serial app).1 in
  usage_tracker reconnected = usage_tracker app
  ∧ _previous_states reconnected = delete serial (_previous_states app)
  ∧ _previous_states reconnected !! serial = None
  ∧ (∀ other, other ≠ serial →
       _previous_states reconnected !! other = _previous_states app !! other)
  ∧ (∀ loop state, gcode_state state ≠ Some "RUNNING" →
       usage_tracker (on_printer_state_update loop serial state reconnected).1
       = usage_tracker app)
  ∧ (∀ loop serial' state (app' : App),
       _sessions (usage_tracker (on_printer_state_update loop serial' state app').1) !! serial
         ≠ _sessions (usage_tracker app') !! serial →
       serial' = serial
       ∧ (starts_session state (_previous_states app' !! serial)
          ∨ ends_session state (_previous_states app' !! serial))).
Proof.
  intros reconnected. subst reconnected. simpl.
  split; [done|]. split; [done|]. split; [apply lookup_delete_eq|].
  split; [intros other Hne; by rewrite lookup_delete_ne|]. split.
  - intros loop state Hnot. rewrite on_printer_state_update_tracker. simpl.
    rewrite lookup_delete_eq, on_state_update_cases. simpl.
    repeat case_decide; try done; naive_solver.
  - intros loop serial' state app' Hchange.
    rewrite on_printer_state_update_tracker in Hchange.
    apply on_state_update_session_change in Hchange as [-> Hwhy]. by split.
Qed.

Lemma on_printer_disconnect_keeps_session_witness :
  let reconnected := (on_printer_disconnect false "P1" sample_app).1 in
  usage_tracker (on_printer_state_update false "P1" sample_end_state reconnected).1
  = usage_tracker sample_app.
Proof.
  destruct (on_printer_disconnect_keeps_session false "P1" sample_app)
    as (_ & _ & _ & _ & Hterminal & _).
  apply Hterminal. discriminate.
Defined.

(* ===================================================================== *)
(** * Further properties of the session tracker *)
(* ===================================================================== *)

Lemma capture_unit_readings ams_unit : ∀ acc,
  capture_unit acc ams_unit = foldl store_reading acc (unit_readings ams_unit).
Proof.
  unfold capture_unit, unit_readings.
  induction (trays ams_unit) as [|tray rest IH]; intros acc; [done|].
  simpl. rewrite IH. unfold capture_tray, tray_reading.
  by destruct (remain tray).
Qed.

Lemma capture_units_readings units : ∀ acc,
  foldl capture_unit acc units = foldl store_reading acc (units ≫= unit_readings).
Proof.
  induction units as [|u rest IH]; intros acc; [done|].
  simpl. rewrite IH, capture_unit_readings. by rewrite foldl_app.
Qed.

Lemma capture_remain_readings state :
  capture_remain state = foldl store_reading ∅ (snapshot_readings state).
Proof.
  unfold capture_remain, snapshot_readings.
  rewrite foldl_app, capture_units_readings.
  destruct (vt_tray state) as [vt|]; [|done]. by destruct (remain vt).
Qed.

Lemma store_readings_other readings key : ∀ acc,
  (∀ kv, kv ∈ readings → kv.1 ≠ key) →
  foldl store_reading acc readings !! key = acc !! key.
Proof.
  induction readings as [|kv rest IH]; intros acc Hother; [done|].
  simpl. rewrite IH.
  - unfold store_reading. rewrite lookup_insert_ne; [done|].
    apply Hother, list_elem_of_here.
  - intros kv' Hin. by apply Hother, list_elem_of_further.
Qed.

(** X1.  The dictionary captured from a snapshot holds, for every key,
    the last non-null reading of that key in the order of the snapshot
    (AMS units and their trays in order, the virtual tray last): a later
    reading overwrites an earlier one. *)
Theorem capture_remain_last_reading_wins
    (state : PrinterState) (before after : list (TrayKey * Z)) (key : TrayKey) (v : Z) :
  snapshot_readings state = before ++ (key, v) :: after →
  (∀ kv, kv ∈ after → kv.1 ≠ key) →
  capture_remain state !! key = Some v.
Proof.
  intros Hsplit Hlast. rewrite capture_remain_readings, Hsplit, foldl_app. simpl.
  rewrite store_readings_other by done.
  unfold store_reading. simpl. apply lookup_insert_eq.
Qed.

Lemma capture_remain_last_reading_wins_witness :
  capture_remain
    (sample_state "RUNNING"
       [{| unit_id := 0; trays := [sample_tray 0 80; sample_tray 0 70] |};
        {| unit_id := 255; trays := [sample_tray 0 33] |}]
       (Some (sample_tray 0 50))) !! VT_KEY = Some 50.
Proof.
  apply (capture_remain_last_reading_wins _
           [((0, 0), 80); ((0, 0), 70); ((255, 0), 33)] []).
  - reflexivity.
  - intros kv Hin. by apply not_elem_of_nil in Hin.
Defined.

(** X2.  [_on_print_start] stores for the device a session that holds
    the readings captured from the snapshot, the job name (["Unknown"]
    when the snapshot has none or an empty one), the progress ([0] when
    missing) and the active tray; it replaces a session the device already
    had, leaves the sessions of the other devices, the callback and the
    loop as they were, and never schedules the usage callback. *)
Theorem on_print_start_replaces_session
    (serial : string) (state : PrinterState) (t : UsageTracker) :
  let r := _on_print_start serial state t in
  _sessions r.1 !! serial
    = Some {| printer_serial := serial;
              print_name := str_or (subtask_name state) "Unknown";
              start_progress := int_or_0 (print_progress state);
              tray_remain_start := capture_remain state;
              active_tray := tray_now state |}
  ∧ (∀ other, other ≠ serial → _sessions r.1 !! other = _sessions t !! other)
  ∧ _on_usage_logged r.1 = _on_usage_logged t
  ∧ _loop r.1 = _loop t
  ∧ filter is_call_soon r.2 = []
  ∧ (subtask_name state = None ∨ subtask_name state = Some "" →
       ∃ session, _sessions r.1 !! serial = Some session
                  ∧ print_name session = "Unknown")
  ∧ (_on_print_start serial state r.1).1 = r.1.
Proof.
  simpl. split; [apply lookup_insert_eq|].
  split; [intros other Hne; by rewrite lookup_insert_ne|].
  split; [done|]. split; [done|].
  split; [by case_bool_decide|]. split.
  - intros Hname. eexists. split; [apply lookup_insert_eq|]. simpl.
    by destruct Hname as [->| ->].
  - f_equal. apply insert_insert_eq.
Qed.

Lemma on_print_start_replaces_session_witness :
  ∃ session,
    _sessions (_on_print_start "P1"
                 {| gcode_state := Some "RUNNING"; subtask_name := Some "";
                    print_progress := None; ams_units := []; vt_tray := None;
                    tray_now := None |}
                 (sample_tracker sample_baseline)).1 !! "P1" = Some session
    ∧ print_name session = "Unknown".
Proof.
  destruct (on_print_start_replaces_session "P1"
              {| gcode_state := Some "RUNNING"; subtask_name := Some "";
                 print_progress := None; ams_units := []; vt_tray := None;
                 tray_now := None |}
              (sample_tracker sample_baseline)) as (_ & _ & _ & _ & _ & Hname & _).
  apply Hname. by right.
Defined.

Lemma compute_tray_usage_entry session current_remain key used :
  compute_tray_usage session current_remain !! key = Some used ↔
  ∃ start_remain end_remain,
    tray_remain_start session !! key = Some start_remain
    ∧ current_remain !! key = Some end_remain
    ∧ end_remain < start_remain
    ∧ used = start_remain - end_remain.
Proof.
  rewrite compute_tray_usage_lookup. unfold slot_delta. split.
  - intros H.
    destruct (tray_remain_start session !! key) as [s|]; [|done]. simpl in H.
    destruct (current_remain !! key) as [e|]; [|done]. simpl in H.
    destruct (e <? s) eqn:Hlt; [|done].
    apply Z.ltb_lt in Hlt. exists s, e. by simplify_eq.
  - intros (s & e & -> & -> & Hlt & ->). simpl.
    by apply Z.ltb_lt in Hlt as ->.
Qed.

Lemma on_printer_state_update_unfold running_loop serial state app :
  on_printer_state_update running_loop serial state app
  = let r := on_state_update serial state (_previous_states app !! serial)
               (usage_tracker app) in
    ({| _previous_states := <[serial := state]> (_previous_states app);
        usage_tracker := r.1 |},
     r.2 ++ schedule_broadcast running_loop (printer_state serial state)).
Proof.
  unfold on_printer_state_update. by destruct (on_state_update _ _ _ _).
Qed.

Lemma on_state_update_start serial state prev_state t :
  starts_session state prev_state →
  on_state_update serial state prev_state t = _on_print_start serial state t.
Proof.
  intros Hstart. rewrite on_state_update_cases. by rewrite decide_True.
Qed.

Lemma on_state_update_quiet serial state prev_state t :
  ¬ starts_session state prev_state → ¬ ends_session state prev_state →
  on_state_update serial state prev_state t = (t, []).
Proof.
  intros Hstart Hend. rewrite on_state_update_cases.
  unfold starts_session, ends_session in *.
  repeat case_decide; first [ done | exfalso; tauto ].
Qed.

Lemma on_state_update_finish serial state prev_state t :
  gcode_state state = Some "FINISH" →
  prev_state ≫= gcode_state = Some "RUNNING" ∨ prev_state ≫= gcode_state = Some "PAUSE" →
  on_state_update serial state prev_state t = _on_print_end serial state true t.
Proof.
  intros Hfin Hprev. rewrite on_state_update_cases.
  rewrite decide_False by (rewrite Hfin; intros [[=] _]).
  destruct Hprev as [Hprev|Hprev].
  - rewrite decide_True by (split; [by left|done]).
    by rewrite bool_decide_true.
  - rewrite decide_False by (rewrite Hprev; intros [_ [=]]).
    by rewrite decide_True.
Qed.

Lemma on_state_update_idle serial state prev_state t :
  gcode_state state = Some "IDLE" →
  prev_state ≫= gcode_state = Some "RUNNING" →
  on_state_update serial state prev_state t = _on_print_end serial state false t.
Proof.
  intros Hidle Hprev. rewrite on_state_update_cases.
  rewrite decide_False by (rewrite Hidle; intros [[=] _]).
  rewrite decide_True by (split; [by right|done]).
  rewrite bool_decide_false; [done|]. by rewrite Hidle.
Qed.

(** X3.  A print seen from start to end: when a device whose previous
    snapshot was not a running one reports ["RUNNING"] and, in its next
    snapshot, ["FINISH"] or ["IDLE"], the second update reports the end of
    the print, successful exactly for ["FINISH"], under the job name of
    the first snapshot and with the usage of every tray that has a reading
    in both snapshots and a smaller one in the second: the difference of
    the two readings.  Afterwards the device has no session and the second
    snapshot is the cached previous one. *)
Theorem print_start_to_end_usage
    (running_loop : bool) (serial : string) (start_state end_state : PrinterState)
    (app : App) :
  gcode_state start_state = Some "RUNNING" →
  _previous_states app !! serial ≫= gcode_state ≠ Some "RUNNING" →
  gcode_state end_state = Some "FINISH" ∨ gcode_state end_state = Some "IDLE" →
  let started := (on_printer_state_update running_loop serial start_state app).1 in
  let ended := on_printer_state_update running_loop serial end_state started in
  ∃ tray_usage rest,
    ended.2 = log_print_ended serial (bool_decide (gcode_state end_state = Some "FINISH"))
                (str_or (subtask_name start_state) "Unknown") tray_usage :: rest
    ∧ (∀ key used,
         tray_usage !! key = Some used ↔
         ∃ start_remain end_remain,
           capture_remain start_state !! key = Some start_remain
           ∧ capture_remain end_state !! key = Some end_remain
           ∧ end_remain < start_remain
           ∧ used = start_remain - end_remain)
    ∧ _sessions (usage_tracker ended.1) !! serial = None
    ∧ _previous_states ended.1 !! serial = Some end_state.
Proof.
  intros Hrun Hprev Hend started ended. subst ended started.
  rewrite (on_printer_state_update_unfold _ _ start_state).
  rewrite (on_state_update_start _ _ _ _ (conj Hrun Hprev)).
  rewrite on_printer_state_update_unfold. cbv zeta. cbn [fst snd _previous_states usage_tracker].
  rewrite lookup_insert_eq.
  set (t1 := (_on_print_start serial start_state (usage_tracker app)).1).
  assert (Hsession : _sessions t1 !! serial
            = Some {| printer_serial := serial;
                      print_name := str_or (subtask_name start_state) "Unknown";
                      start_progress := int_or_0 (print_progress start_state);
                      tray_remain_start := capture_remain start_state;
                      active_tray := tray_now start_state |})
    by apply lookup_insert_eq.
  assert (Hcall : on_state_update serial end_state (Some start_state) t1
            = _on_print_end serial end_state
                (bool_decide (gcode_state end_state = Some "FINISH")) t1).
  { destruct Hend as [Hfin|Hidle].
    - rewrite bool_decide_true by done.
      apply on_state_update_finish; [done|by left].
    - rewrite bool_decide_false by (by rewrite Hidle).
      by apply on_state_update_idle. }
  rewrite Hcall, (on_print_end_active _ _ _ _ _ Hsession).
  cbv zeta. cbn [fst snd print_name tray_remain_start _sessions].
  eexists _, _. split; [reflexivity|]. split; [|split].
  - intros key used. by rewrite compute_tray_usage_entry.
  - apply lookup_delete_eq.
  - apply lookup_insert_eq.
Qed.

Lemma print_start_to_end_usage_witness :
  ∃ tray_usage rest,
    (on_printer_state_update false "P1" sample_end_state
       (on_printer_state_update false "P1"
          (sample_state "RUNNING"
             [{| unit_id := 0; trays := [sample_tray 0 80] |}] None)
          {| _previous_states := ∅;
             usage_tracker := {| _sessions := ∅; _on_usage_logged := None;
                                 _loop := None |} |}).1).2
    = log_print_ended "P1" true "benchy" tray_usage :: rest
    ∧ tray_usage !! (0, 0) = Some 5.
Proof.
  destruct (print_start_to_end_usage false "P1"
              (sample_state "RUNNING"
                 [{| unit_id := 0; trays := [sample_tray 0 80] |}] None)
              sample_end_state
              {| _previous_states := ∅;
                 usage_tracker := {| _sessions := ∅; _on_usage_logged := None;
                                     _loop := None |} |})
    as (usage & rest & Heff & Hchar & _).
  - reflexivity.
  - discriminate.
  - by left.
  - exists usage, rest. split; [exact Heff|].
    apply Hchar. exists 80, 75. vm_compute. tauto.
Defined.

Lemma on_printer_state_update_quiet running_loop serial state app :
  ¬ starts_session state (_previous_states app !! serial) →
  ¬ ends_session state (_previous_states app !! serial) →
  on_printer_state_update running_loop serial state app
  = ({| _previous_states := <[serial := state]> (_previous_states app);
        usage_tracker := usage_tracker app |},
     schedule_broadcast running_loop (printer_state serial state)).
Proof.
  intros Hstart Hend. rewrite on_printer_state_update_unfold.
  by rewrite (on_state_update_quiet _ _ _ _ Hstart Hend).
Qed.

(** X4.  A print that is paused and then finishes: after a start
    (["RUNNING"] after a snapshot that was not), a ["PAUSE"] snapshot
    leaves the tracker as it is and reports nothing, and a ["FINISH"]
    snapshot that follows it ends the session as a success, with the usage
    computed against the readings captured at the start, not at the
    pause. *)
Theorem paused_print_finishes_against_start
    (running_loop : bool) (serial : string)
    (start_state paused_state end_state : PrinterState) (app : App) :
  gcode_state start_state = Some "RUNNING" →
  _previous_states app !! serial ≫= gcode_state ≠ Some "RUNNING" →
  gcode_state paused_state = Some "PAUSE" →
  gcode_state end_state = Some "FINISH" →
  let started := (on_printer_state_update running_loop serial start_state app).1 in
  let paused := on_printer_state_update running_loop serial paused_state started in
  let ended := on_printer_state_update running_loop serial end_state paused.1 in
  usage_tracker paused.1 = usage_tracker started
  ∧ paused.2 = schedule_broadcast running_loop (printer_state serial paused_state)
  ∧ ∃ tray_usage rest,
      ended.2 = log_print_ended serial true
                  (str_or (subtask_name start_state) "Unknown") tray_usage :: rest
      ∧ (∀ key used,
           tray_usage !! key = Some used ↔
           ∃ start_remain end_remain,
             capture_remain start_state !! key = Some start_remain
             ∧ capture_remain end_state !! key = Some end_remain
             ∧ end_remain < start_remain
             ∧ used = start_remain - end_remain)
      ∧ _sessions (usage_tracker ended.1) !! serial = None.
Proof.
  intros Hrun Hprev Hpause Hfin started paused ended.
  assert (Hquiet : paused
            = ({| _previous_states := <[serial := paused_state]> (_previous_states started);
                  usage_tracker := usage_tracker started |},
               schedule_broadcast running_loop (printer_state serial paused_state))).
  { apply on_printer_state_update_quiet.
    - unfold starts_session. rewrite Hpause. intros [[=] _].
    - unfold ends_session. rewrite Hpause. intros [[[[=]|[=]] _]|[[=] _]]. }
  split; [by rewrite Hquiet|]. split; [by rewrite Hquiet|].
  subst ended. rewrite Hquiet. cbn [fst].
  rewrite on_printer_state_update_unfold. cbv zeta.
  cbn [fst snd _previous_states usage_tracker]. rewrite lookup_insert_eq.
  rewrite (on_state_update_finish serial end_state (Some paused_state))
    by (try done; by right).
  subst started. rewrite (on_printer_state_update_unfold _ _ start_state).
  rewrite (on_state_update_start _ _ _ _ (conj Hrun Hprev)).
  cbv zeta. cbn [fst snd usage_tracker].
  set (t1 := (_on_print_start serial start_state (usage_tracker app)).1).
  assert (Hsession : _sessions t1 !! serial
            = Some {| printer_serial := serial;
                      print_name := str_or (subtask_name start_state) "Unknown";
                      start_progress := int_or_0 (print_progress start_state);
                      tray_remain_start := capture_remain start_state;
                      active_tray := tray_now start_state |})
    by apply lookup_insert_eq.
  rewrite (on_print_end_active _ _ _ _ _ Hsession).
  cbv zeta. cbn [fst snd print_name tray_remain_start _sessions].
  eexists _, _. split; [reflexivity|]. split.
  - intros key used. by rewrite compute_tray_usage_entry.
  - apply lookup_delete_eq.
Qed.

Lemma paused_print_finishes_against_start_witness :
  ∃ tray_usage rest,
    (on_printer_state_update false "P1" sample_end_state
       (on_printer_state_update false "P1"
          (sample_state "PAUSE" [{| unit_id := 0; trays := [sample_tray 0 77] |}] None)
          (on_printer_state_update false "P1"
             (sample_state "RUNNING" [{| unit_id := 0; trays := [sample_tray 0 80] |}] None)
             {| _previous_states := ∅;
                usage_tracker := {| _sessions := ∅; _on_usage_logged := None;
                                    _loop := None |} |}).1).1).2
    = log_print_ended "P1" true "benchy" tray_usage :: rest
    ∧ tray_usage !! (0, 0) = Some 5.
Proof.
  destruct (paused_print_finishes_against_start false "P1"
              (sample_state "RUNNING" [{| unit_id := 0; trays := [sample_tray 0 80] |}] None)
              (sample_state "PAUSE" [{| unit_id := 0; trays := [sample_tray 0 77] |}] None)
              sample_end_state
              {| _previous_states := ∅;
                 usage_tracker := {| _sessions := ∅; _on_usage_logged := None;
                                     _loop := None |} |})
    as (_ & _ & usage & rest & Heff & Hchar & _).
  - reflexivity.
  - discriminate.
  - reflexivity.
  - reflexivity.
  - exists usage, rest. split; [exact Heff|].
    apply Hchar. exists 80, 75. vm_compute. tauto.
Defined.

(** X5.  A running snapshot starts a session only after a snapshot that
    was not a running one.  After a running one it changes nothing in the
    tracker, so the readings captured at the start are kept; after any
    other one (none, idle, paused, finished) it stores a session with the
    readings of the new snapshot in place of the session the device had,
    so a print resumed after a pause is measured from the resume. *)
Theorem running_update_recaptures_after_non_running
    (running_loop : bool) (serial : string) (state : PrinterState) (app : App) :
  gcode_state state = Some "RUNNING" →
  let r := on_printer_state_update running_loop serial state app in
  (_previous_states app !! serial ≫= gcode_state = Some "RUNNING" →
     usage_tracker r.1 = usage_tracker app
     ∧ r.2 = schedule_broadcast running_loop (printer_state serial state))
  ∧ (_previous_states app !! serial ≫= gcode_state ≠ Some "RUNNING" →
     ∃ session,
       _sessions (usage_tracker r.1) !! serial = Some session
       ∧ tray_remain_start session = capture_remain state
       ∧ print_name session = str_or (subtask_name state) "Unknown").
Proof.
  intros Hrun r. subst r. split.
  - intros Hprev. rewrite on_printer_state_update_quiet; [done| |].
    + unfold starts_session. tauto.
    + unfold ends_session. rewrite Hrun. intros [[[[=]|[=]] _]|[[=] _]].
  - intros Hprev. rewrite on_printer_state_update_unfold.
    rewrite (on_state_update_start _ _ _ _ (conj Hrun Hprev)).
    eexists. split; [apply lookup_insert_eq|done].
Qed.

Lemma running_update_recaptures_after_non_running_witness :
  ∃ session,
    _sessions (usage_tracker
      (on_printer_state_update false "P1"
         (sample_state "RUNNING" [{| unit_id := 0; trays := [sample_tray 0 60] |}] None)
         {| _previous_states := {["P1" := sample_state "PAUSE" [] None]};
            usage_tracker := sample_tracker sample_baseline |}).1) !! "P1" = Some session
    ∧ tray_remain_start session !! (0, 0) = Some 60.
Proof.
  destruct (running_update_recaptures_after_non_running false "P1"
              (sample_state "RUNNING" [{| unit_id := 0; trays := [sample_tray 0 60] |}] None)
              {| _previous_states := {["P1" := sample_state "PAUSE" [] None]};
                 usage_tracker := sample_tracker sample_baseline |} eq_refl)
    as [_ Hnew].
  destruct Hnew as (session & Hs & Hb & _); [discriminate|].
  exists session. split; [exact Hs|]. rewrite Hb. reflexivity.
Defined.

(** X6.  Only running, finished and idle snapshots are acted upon.  A
    snapshot with any other [gcode_state] (paused, failed, preparing,
    missing) leaves the tracker unchanged and performs no effect whatever
    the previous snapshot was, so a print that fails is never closed by
    its ["FAILED"] snapshot; and a finished or idle snapshot does nothing
    unless the previous snapshot was a running one (or a paused one, for
    finished), so a print cancelled while paused keeps its session. *)
Theorem other_snapshots_ignored
    (serial : string) (state : PrinterState) (prev_state : option PrinterState)
    (t : UsageTracker) :
  (gcode_state state ≠ Some "RUNNING" →
   gcode_state state ≠ Some "FINISH" →
   gcode_state state ≠ Some "IDLE" →
   on_state_update serial state prev_state t = (t, []))
  ∧ (gcode_state state = Some "IDLE" →
     prev_state ≫= gcode_state ≠ Some "RUNNING" →
     on_state_update serial state prev_state t = (t, []))
  ∧ (gcode_state state = Some "FINISH" →
     prev_state ≫= gcode_state ≠ Some "RUNNING" →
     prev_state ≫= gcode_state ≠ Some "PAUSE" →
     on_state_update serial state prev_state t = (t, [])).
Proof.
  split; [|split].
  - intros Hr Hf Hi. apply on_state_update_quiet.
    + unfold starts_session. tauto.
    + unfold ends_session. tauto.
  - intros Hi Hprev. apply on_state_update_quiet.
    + unfold starts_session. rewrite Hi. intros [[=] _].
    + unfold ends_session. rewrite Hi. intros [[_ ?]|[[=] _]]. tauto.
  - intros Hf Hp1 Hp2. apply on_state_update_quiet.
    + unfold starts_session. rewrite Hf. intros [[=] _].
    + unfold ends_session. tauto.
Qed.

Lemma other_snapshots_ignored_witness :
  on_state_update "P1" (sample_state "FAILED" [] None)
    (Some (sample_state "RUNNING" [] None)) (sample_tracker sample_baseline)
  = (sample_tracker sample_baseline, [])
  ∧ on_state_update "P1" (sample_state "IDLE" [] None)
      (Some (sample_state "PAUSE" [] None)) (sample_tracker sample_baseline)
    = (sample_tracker sample_baseline, []).
Proof.
  destruct (other_snapshots_ignored "P1" (sample_state "FAILED" [] None)
              (Some (sample_state "RUNNING" [] None)) (sample_tracker sample_baseline))
    as (Hother & _ & _).
  destruct (other_snapshots_ignored "P1" (sample_state "IDLE" [] None)
              (Some (sample_state "PAUSE" [] None)) (sample_tracker sample_baseline))
    as (_ & Hidle & _).
  split.
  - apply Hother; discriminate.
  - apply Hidle; [reflexivity|discriminate].
Defined.

(** X7.  The usage computed at the end of a session only has keys that
    are tracked in the baseline and read in the ending snapshot, so it
    never has more entries than the baseline; and when the ending reading
    of a tray is not negative, the usage of that tray is at most its
    baseline reading. *)
Theorem tray_usage_within_baseline (session : PrintSession) (current_remain : TrayMap) :
  dom (compute_tray_usage session current_remain)
    ⊆ dom (tray_remain_start session) ∩ dom current_remain
  ∧ (size (compute_tray_usage session current_remain)
     ≤ size (tray_remain_start session))%nat
  ∧ (∀ key used start_remain end_remain,
       compute_tray_usage session current_remain !! key = Some used →
       tray_remain_start session !! key = Some start_remain →
       current_remain !! key = Some end_remain →
       0 ≤ end_remain →
       0 < used ≤ start_remain).
Proof.
  assert (Hdom : dom (compute_tray_usage session current_remain)
                   ⊆ dom (tray_remain_start session) ∩ dom current_remain).
  { intros key [used Hused]%elem_of_dom.
    apply compute_tray_usage_entry in Hused as (s & e & Hs & He & _).
    apply elem_of_intersection. split; apply elem_of_dom; eauto. }
  split; [exact Hdom|]. split.
  - rewrite <- !size_dom. apply subseteq_size. set_solver.
  - intros key used s e Hused Hs He Hpos.
    apply compute_tray_usage_entry in Hused as (s' & e' & Hs' & He' & Hlt & ->).
    simplify_eq. lia.
Qed.

Lemma tray_usage_within_baseline_witness :
  0 < 5 ≤ 80.
Proof.
  destruct (tray_usage_within_baseline (sample_session sample_baseline)
              (capture_remain sample_end_state)) as (_ & _ & Hbound).
  apply (Hbound (0, 0) 5 80 75).
  - vm_compute. reflexivity.
  - vm_compute. reflexivity.
  - vm_compute. reflexivity.
  - lia.
Defined.

Lemma on_print_start_calls serial state t :
  filter is_call_soon (_on_print_start serial state t).2 = [].
Proof. simpl. by case_bool_decide. Qed.

Lemma on_state_update_calls serial state prev_state t :
  filter is_call_soon (on_state_update serial state prev_state t).2 = []
  ∨ ∃ session success,
      ends_session state prev_state
      ∧ _sessions t !! serial = Some session
      ∧ filter is_call_soon (on_state_update serial state prev_state t).2
        = notify_usage t serial session
            (compute_tray_usage session (capture_remain state))
      ∧ on_state_update serial state prev_state t
        = _on_print_end serial state success t.
Proof.
  destruct (decide (ends_session state prev_state)) as [Hend|Hquiet].
  - destruct (on_state_update_end serial state prev_state t Hend) as [b Hb].
    rewrite Hb. destruct (_sessions t !! serial) as [session|] eqn:Hs.
    + right. exists session, b. split; [done|]. split; [done|].
      split; [by apply on_print_end_calls|done].
    + left. by rewrite (on_print_end_inactive _ _ _ _ Hs).
  - left. rewrite on_state_update_cases.
    unfold ends_session in Hquiet.
    repeat case_decide; first [ apply on_print_start_calls | done | exfalso; tauto ].
Qed.

(** X8.  An update hands the usage callback to the loop at most once,
    and only when it ends an active session of the device with a usage
    that is not empty, with the callback and on the loop that were set on
    the tracker; when no callback or no loop was set, nothing is scheduled
    and the usage is dropped without an error. *)
Theorem usage_callback_scheduled_at_most_once
    (serial : string) (state : PrinterState) (prev_state : option PrinterState)
    (t : UsageTracker) :
  let effects := (on_state_update serial state prev_state t).2 in
  (length (filter is_call_soon effects) ≤ 1)%nat
  ∧ (_on_usage_logged t = None ∨ _loop t = None → filter is_call_soon effects = [])
  ∧ (∀ loop cb s n usage,
       call_soon_threadsafe loop cb s n usage ∈ effects →
       s = serial ∧ _loop t = Some loop ∧ _on_usage_logged t = Some cb
       ∧ usage ≠ ∅ ∧ ends_session state prev_state
       ∧ ∃ session, _sessions t !! serial = Some session
                    ∧ n = print_name session
                    ∧ usage = compute_tray_usage session (capture_remain state)).
Proof.
  intros effects. subst effects.
  destruct (on_state_update_calls serial state prev_state t)
    as [Hnone|(session & b & Hend & Hs & Hcalls & Hrun)].
  - rewrite Hnone. split; [simpl; lia|]. split; [done|].
    intros loop cb s n usage Hin.
    assert (call_soon_threadsafe loop cb s n usage
              ∈ filter is_call_soon (on_state_update serial state prev_state t).2) as Hf
      by (apply list_elem_of_filter; split; [done|exact Hin]).
    rewrite Hnone in Hf. by apply not_elem_of_nil in Hf.
  - rewrite Hcalls. split; [|split].
    + unfold notify_usage. case_bool_decide; [|simpl; lia].
      destruct (_on_usage_logged t); [|simpl; lia].
      destruct (_loop t); simpl; lia.
    + unfold notify_usage. intros [Hcb|Hloop].
      * rewrite Hcb. by case_bool_decide.
      * rewrite Hloop. case_bool_decide; [|done]. by destruct (_on_usage_logged t).
    + intros loop cb s n usage Hin.
      assert (call_soon_threadsafe loop cb s n usage
                ∈ filter is_call_soon (on_state_update serial state prev_state t).2) as Hf
        by (apply list_elem_of_filter; split; [done|exact Hin]).
      rewrite Hcalls in Hf.
      apply notify_usage_carries in Hf as (l & c & Hl & Hc & Hne & Heq).
      simplify_eq. repeat split; try done. by exists session.
Qed.

Lemma usage_callback_scheduled_at_most_once_witness :
  filter is_call_soon
    (on_state_update "P1" sample_end_state (Some (sample_state "RUNNING" [] None))
       {| _sessions := {["P1" := sample_session sample_baseline]};
          _on_usage_logged := Some "on_usage_logged";
          _loop := None |}).2 = [].
Proof.
  destruct (usage_callback_scheduled_at_most_once "P1" sample_end_state
              (Some (sample_state "RUNNING" [] None))
              {| _sessions := {["P1" := sample_session sample_baseline]};
                 _on_usage_logged := Some "on_usage_logged";
                 _loop := None |}) as (_ & Hdrop & _).
  apply Hdrop. by right.
Defined.

(** X9.  [get_active_sessions] lists exactly the devices that have a
    session: a device is listed after [_on_print_start], with its job
    name, its active tray and the number of trays tracked, and is not
    listed after [_on_print_end]; setting the callback or the loop does not
    change the list. *)
Theorem get_active_sessions_tracks
    (serial : string) (state : PrinterState) (success : bool) (t : UsageTracker)
    (callback : Callable) (loop : EventLoop) :
  dom (get_active_sessions t) = dom (_sessions t)
  ∧ get_active_sessions (_on_print_start serial state t).1 !! serial
    = Some (str_or (subtask_name state) "Unknown", tray_now state,
            size (capture_remain state))
  ∧ get_active_sessions (_on_print_end serial state success t).1 !! serial = None
  ∧ (∀ other, other ≠ serial →
       get_active_sessions (_on_print_start serial state t).1 !! other
       = get_active_sessions t !! other
       ∧ get_active_sessions (_on_print_end serial state success t).1 !! other
         = get_active_sessions t !! other)
  ∧ get_active_sessions (set_usage_callback callback t) = get_active_sessions t
  ∧ get_active_sessions (set_event_loop loop t) = get_active_sessions t.
Proof.
  unfold get_active_sessions. split; [apply dom_fmap_L|].
  split; [simpl; by rewrite lookup_fmap, lookup_insert_eq|].
  split; [rewrite on_print_end_tracker; simpl; by rewrite lookup_fmap, lookup_delete_eq|].
  split; [|done].
  intros other Hne. rewrite on_print_end_tracker. simpl.
  rewrite !lookup_fmap. by rewrite lookup_insert_ne, lookup_delete_ne.
Qed.

Lemma get_active_sessions_tracks_witness :
  get_active_sessions
    (_on_print_end "P1" sample_end_state true
       {| _sessions := <["P2" := sample_session ∅]> {["P1" := sample_session sample_baseline]};
          _on_usage_logged := None; _loop := None |}).1 !! "P2"
  = Some ("benchy", Some 0, 0%nat).
Proof.
  destruct (get_active_sessions_tracks "P1" sample_end_state true
              {| _sessions := <["P2" := sample_session ∅]>
                                {["P1" := sample_session sample_baseline]};
                 _on_usage_logged := None; _loop := None |} "cb" 1%positive)
    as (_ & _ & _ & Hother & _).
  destruct (Hother "P2") as [_ ->]; [discriminate|]. reflexivity.
Defined.

(* ===================================================================== *)
(** * Further properties of the display monitor *)
(* ===================================================================== *)

(** X10.  After a heartbeat [is_display_connected] only looks at the
    time since that heartbeat: following a heartbeat that read the clock
    [now], its value at the clock [later] is [later - now < 10] on floats,
    whatever the connected flag says, so it is false exactly when
    [later - now >= 10]; [display_status] then reports [now] as the time of
    last contact.  Before the first heartbeat it is false at every time and
    [display_status] reports no time of last contact. *)
Theorem display_connected_within_timeout
    (running_loop : bool) (now later : spec_float) (d : Display) :
  is_clock_reading now = true →
  let seen := (update_display_heartbeat running_loop now d).1 in
  is_display_connected later seen = float_lt (float_sub later now) DISPLAY_TIMEOUT_SEC
  ∧ (is_clock_reading later = true →
       (is_display_connected later seen = false
        ↔ float_le DISPLAY_TIMEOUT_SEC (float_sub later now) = true))
  ∧ status_connected (display_status later seen) = is_display_connected later seen
  ∧ status_last_seen (display_status later seen) = Some now
  ∧ is_display_connected later display_init = false
  ∧ status_last_seen (display_status later display_init) = None
  ∧ is_display_connected later (mark_disconnected seen) = is_display_connected later seen.
Proof.
  intros Hnow seen.
  assert (Hseen : ∀ d', _display_last_seen d' = now →
            is_display_connected later d'
            = float_lt (float_sub later now) DISPLAY_TIMEOUT_SEC).
  { intros d' Hd'. unfold is_display_connected.
    by rewrite Hd', (clock_reading_nonzero now Hnow). }
  split; [exact (Hseen seen eq_refl)|]. split.
  - intros Hlater. rewrite (Hseen seen eq_refl).
    rewrite <- float_not_lt_timeout by by apply float_sub_clock_not_nan.
    by destruct (float_lt _ _).
  - split; [done|]. split.
    + unfold display_status. simpl. by destruct now as [| | |[] m e].
    + split; [done|]. split; [done|].
      by rewrite (Hseen seen eq_refl), (Hseen (mark_disconnected seen) eq_refl).
Qed.

Lemma display_connected_within_timeout_witness :
  is_display_connected (sample_time 109) sample_display = true
  ∧ is_display_connected (sample_time 110) sample_display = false.
Proof.
  destruct (display_connected_within_timeout true (sample_time 100) (sample_time 110)
              display_init eq_refl) as (_ & Hlate & _).
  split; [reflexivity|].
  apply Hlate; reflexivity.
Defined.

Lemma check_step_disconnected json_dumps now d hub :
  _display_connected d = false →
  check_display_timeout_step json_dumps now (d, hub) = (d, hub).
Proof. intros H. unfold check_display_timeout_step. by rewrite H. Qed.

Lemma check_loop_disconnected json_dumps readings : ∀ d hub,
  _display_connected d = false →
  (check_display_timeout json_dumps readings (d, hub)).1 = (d, hub).
Proof.
  induction readings as [|now later IH]; intros d hub H; [done|].
  rewrite check_display_timeout_cons, check_step_disconnected by done. by apply IH.
Qed.

Lemma check_step_connected json_dumps now d hub :
  is_clock_reading (_display_last_seen d) = true →
  is_clock_reading now = true →
  _display_connected d = true →
  check_display_timeout_step json_dumps now (d, hub)
  = if float_le DISPLAY_TIMEOUT_SEC (float_sub now (_display_last_seen d))
    then (mark_disconnected d, broadcast_message json_dumps device_disconnected hub)
    else (d, hub).
Proof.
  intros Hseen Hnow Hon. unfold check_display_timeout_step.
  by rewrite Hon, (timed_out_iff now d Hseen Hnow).
Qed.

(** X11.  The checking loop reports a timeout once.  Started on a
    connected display and left alone for any number of rounds, it ends
    either in the state it started from or in the state where the display
    is marked disconnected and [device_disconnected] was broadcast one
    time; the latter exactly when one of the rounds read a clock that is
    at least ten seconds (as a float difference) after the last heartbeat.
    Once the display is marked disconnected, further rounds do nothing. *)
Theorem check_display_timeout_detects_once
    (json_dumps : Message → string) (readings : list spec_float)
    (d : Display) (hub : Hub) :
  display_reachable d →
  _display_connected d = true →
  Forall (λ now, is_clock_reading now = true) readings →
  let fired := (mark_disconnected d,
                broadcast_message json_dumps device_disconnected hub) in
  let r := (check_display_timeout json_dumps readings (d, hub)).1 in
  (r = (d, hub) ∨ r = fired)
  ∧ (r = fired ↔
     ∃ now, now ∈ readings
            ∧ float_le DISPLAY_TIMEOUT_SEC (float_sub now (_display_last_seen d)) = true)
  ∧ (∀ more, (check_display_timeout json_dumps more fired).1 = fired).
Proof.
  intros Hreach Hon Hreadings fired r.
  pose proof (display_connected_seen d Hreach Hon) as Hseen.
  assert (Hstay : ∀ more, (check_display_timeout json_dumps more fired).1 = fired).
  { intros more. by apply check_loop_disconnected. }
  assert (Hdiff : (d, hub) ≠ fired).
  { intros [= Hd _]. apply (f_equal _display_connected) in Hd.
    simpl in Hd. congruence. }
  subst r. split; [|split; [|exact Hstay]].
  - induction Hreadings as [|now later Hnow _ IH]; [by left|].
    rewrite check_display_timeout_cons, check_step_connected by done.
    destruct (float_le _ _); [right; apply Hstay|apply IH].
  - induction Hreadings as [|now later Hnow _ IH].
    + split; [by intros ?%Hdiff|]. intros (now & Hin & _).
      by apply not_elem_of_nil in Hin.
    + rewrite check_display_timeout_cons, check_step_connected by done.
      destruct (float_le DISPLAY_TIMEOUT_SEC (float_sub now (_display_last_seen d)))
        eqn:Hlate.
      * rewrite Hstay. split; [|done]. intros _. exists now.
        split; [apply list_elem_of_here|done].
      * rewrite IH. split.
        -- intros (t & Hin & Ht). exists t. split; [by apply list_elem_of_further|done].
        -- intros (t & Hin & Ht). apply elem_of_cons in Hin as [->|Hin].
           ++ congruence.
           ++ by exists t.
Qed.

Lemma check_display_timeout_detects_once_witness :
  (check_display_timeout sample_dumps
     [sample_time 103; sample_time 107; sample_time 112; sample_time 115]
     (sample_display, sample_hub)).1
  = (mark_disconnected sample_display,
     broadcast_message sample_dumps device_disconnected sample_hub).
Proof.
  destruct (check_display_timeout_detects_once sample_dumps
              [sample_time 103; sample_time 107; sample_time 112; sample_time 115]
              sample_display sample_hub) as (_ & Hfired & _).
  - apply (reach_heartbeat true (sample_time 100) display_init);
      [reflexivity|apply reach_init].
  - reflexivity.
  - repeat constructor.
  - apply Hfired. exists (sample_time 112). split; [|reflexivity].
    do 2 apply list_elem_of_further. apply list_elem_of_here.
Defined.

Lemma display_heartbeat_response now version update_available d :
  (display_heartbeat now version update_available d).1.1
    = truthy (_display_pending_command d)
  ∧ _display_pending_command (display_heartbeat now version update_available d).1.2 = None.
Proof.
  unfold display_heartbeat. simpl.
  destruct (truthy version); destruct update_available; simpl; done.
Qed.

(** X12.  A heartbeat hands over the pending command and empties the
    mailbox: the response of [display_heartbeat] carries the command
    queued last (nothing when that command is the empty string, which is
    dropped), and the response of the next heartbeat carries none, so a
    queued command reaches the display at most once.  Of two commands
    queued between two heartbeats the first never reaches the display. *)
Theorem heartbeat_delivers_command_once
    (now later : spec_float) (version version' : option string)
    (update_available update_available' : option bool)
    (first command : string) (d : Display) :
  let r1 := display_heartbeat now version update_available
              (queue_display_command command d) in
  let r2 := display_heartbeat later version' update_available' r1.1.2 in
  r1.1.1 = (if decide (command = "") then None else Some command)
  ∧ _display_pending_command r1.1.2 = None
  ∧ r2.1.1 = None
  ∧ display_heartbeat now version update_available
      (queue_display_command command (queue_display_command first d)) = r1.
Proof.
  intros r1 r2. subst r2 r1.
  destruct (display_heartbeat_response now version update_available
              (queue_display_command command d)) as [Hresp Hempty].
  split; [|split; [exact Hempty|split]].
  - rewrite Hresp. simpl. by case_bool_decide; case_decide.
  - destruct (display_heartbeat_response later version' update_available'
                (display_heartbeat now version update_available
                   (queue_display_command command d)).1.2) as [-> _].
    by rewrite Hempty.
  - reflexivity.
Qed.

(** X13.  What a heartbeat through the endpoint changes and announces:
    the display is connected with the time of the heartbeat as last
    contact; the firmware version is replaced only by a non-empty one and
    the update flag only by a flag that is given; [device_connected] is
    scheduled only when the display was disconnected and
    [device_update_available] only when the given flag differs from the
    stored one.  Hence a second heartbeat with the same arguments
    announces nothing. *)
Theorem display_heartbeat_announces_changes
    (now later : spec_float) (version : option string) (update_available : option bool)
    (d : Display) :
  let r1 := display_heartbeat now version update_available d in
  let r2 := display_heartbeat later version update_available r1.1.2 in
  _display_last_seen r1.1.2 = now
  ∧ _display_connected r1.1.2 = true
  ∧ _display_firmware_version r1.1.2
    = match truthy version with Some v => Some v | None => _display_firmware_version d end
  ∧ _device_update_available r1.1.2 = default (_device_update_available d) update_available
  ∧ r1.2 = (if _display_connected d then [] else [create_task_broadcast device_connected])
           ++ match update_available with
              | Some ua => if decide (ua = _device_update_available d) then []
                           else [create_task_broadcast (device_update_available ua)]
              | None => []
              end
  ∧ r2.2 = []
  ∧ _display_firmware_version r2.1.2 = _display_firmware_version r1.1.2
  ∧ _device_update_available r2.1.2 = _device_update_available r1.1.2.
Proof.
  unfold display_heartbeat. simpl.
  destruct (truthy version) as [v|], update_available as [ua|];
    destruct (_display_connected d), (_device_update_available d); simpl;
    repeat split; try destruct ua; simpl; try done.
Qed.

Lemma queue_if_connected_spec command now d :
  queue_if_connected command now d
  = if is_display_connected now d
    then (command_queued, queue_display_command command d)
    else (no_device_connected, d).
Proof. unfold queue_if_connected. by destruct (is_display_connected now d). Qed.

(** X14.  The device endpoints queue their command only while the
    display has been heard from during the last ten seconds, whatever the
    connected flag says: after a heartbeat that read the clock [seen_at],
    [reboot_device] at the clock [now] answers that the command is queued
    exactly when [now - seen_at < 10] on floats, and otherwise refuses and
    leaves the display variables unchanged, as the other endpoints do.  A
    queued command is in the response of the next heartbeat; when
    [update_device] is called before that heartbeat, only ["update"]
    is. *)
Theorem device_command_needs_recent_heartbeat
    (running_loop : bool) (seen_at now later : spec_float) (version : option string)
    (update_available : option bool) (d : Display) :
  is_clock_reading seen_at = true →
  let seen := (update_display_heartbeat running_loop seen_at d).1 in
  let fresh := float_lt (float_sub now seen_at) DISPLAY_TIMEOUT_SEC in
  ((reboot_device now seen).1 = command_queued ↔ fresh = true)
  ∧ (fresh = false →
       reboot_device now seen = (no_device_connected, seen)
       ∧ update_device now seen = (no_device_connected, seen)
       ∧ scale_tare now seen = (no_device_connected, seen)
       ∧ scale_reset now seen = (no_device_connected, seen))
  ∧ (fresh = true →
       (display_heartbeat later version update_available
          (reboot_device now seen).2).1.1 = Some "reboot"
       ∧ (display_heartbeat later version update_available
            (update_device now (reboot_device now seen).2).2).1.1 = Some "update"
       ∧ (display_heartbeat later version update_available
            (scale_tare now seen).2).1.1 = Some "scale_tare"
       ∧ (display_heartbeat later version update_available
            (scale_reset now seen).2).1.1 = Some "scale_reset").
Proof.
  intros Hseen_at seen fresh.
  assert (Hwin : ∀ d', _display_last_seen d' = seen_at →
            is_display_connected now d' = fresh).
  { intros d' Hd'. unfold is_display_connected.
    by rewrite Hd', (clock_reading_nonzero seen_at Hseen_at). }
  unfold reboot_device, update_device, scale_tare, scale_reset.
  split; [|split].
  - rewrite queue_if_connected_spec, (Hwin seen eq_refl).
    destruct fresh; simpl; split; done.
  - intros Hstale. rewrite !queue_if_connected_spec, (Hwin seen eq_refl).
    by rewrite Hstale.
  - intros Hfresh.
    rewrite !queue_if_connected_spec, (Hwin seen eq_refl), Hfresh. cbn [snd].
    rewrite (Hwin (queue_display_command "reboot" seen) eq_refl), Hfresh. cbn [snd].
    repeat split;
      match goal with
      | |- (display_heartbeat ?a ?b ?c ?x).1.1 = _ =>
          by destruct (display_heartbeat_response a b c x) as [-> _]
      end.
Qed.

Lemma device_command_needs_recent_heartbeat_witness :
  reboot_device (sample_time 111) sample_display = (no_device_connected, sample_display)
  ∧ (display_heartbeat (sample_time 105) None None
       (reboot_device (sample_time 104) sample_display).2).1.1
    = Some "reboot".
Proof.
  destruct (device_command_needs_recent_heartbeat true (sample_time 100) (sample_time 111)
              (sample_time 105) None None display_init eq_refl) as (_ & Hstale & _).
  destruct (device_command_needs_recent_heartbeat true (sample_time 100) (sample_time 104)
              (sample_time 105) None None display_init eq_refl) as (_ & _ & Hfresh).
  split.
  - apply Hstale. reflexivity.
  - apply Hfresh. reflexivity.
Defined.

(* ===================================================================== *)
(** * Further properties of the WebSocket registry *)
(* ===================================================================== *)

(** X15.  Broadcasts compose in order.  After a broadcast the registry
    is a subset of the former one and holds no client whose connection is
    broken, so a second broadcast removes nobody; every client that is
    left has received the two messages, the first before the second, after
    what it had received before, and a client that is not left has
    received neither. *)
Theorem consecutive_broadcasts_in_order
    (json_dumps : Message → string) (m1 m2 : Message) (hub : Hub) :
  let h1 := broadcast_message json_dumps m1 hub in
  let h2 := broadcast_message json_dumps m2 h1 in
  websocket_clients h1 ⊆ websocket_clients hub
  ∧ websocket_clients h1 ∩ closed (transport h1) = ∅
  ∧ websocket_clients h2 = websocket_clients h1
  ∧ (∀ ws, ws ∈ websocket_clients h1 →
       received (transport h2) ws
       = received (transport hub) ws ++ [json_dumps m1; json_dumps m2])
  ∧ (∀ ws, ws ∉ websocket_clients h1 →
       received (transport h2) ws = received (transport hub) ws).
Proof.
  intros h1 h2.
  destruct (broadcast_message_spec json_dumps m1 hub) as (Hc1 & Hreg1 & Hrecv1).
  destruct (broadcast_message_spec json_dumps m2 h1) as (Hc2 & Hreg2 & Hrecv2).
  fold h1 in Hc1, Hreg1, Hrecv1, Hc2, Hreg2, Hrecv2. fold h2 in Hc2, Hreg2, Hrecv2.
  split; [intros ws; rewrite Hreg1; tauto|].
  split; [apply set_eq; intros ws;
          rewrite elem_of_intersection, Hreg1, Hc1; set_solver|].
  split; [apply set_eq; intros ws; rewrite Hreg2, Hc1, Hreg1; tauto|].
  split.
  - intros ws Hin. pose proof Hin as Hboth. apply Hreg1 in Hboth as [Hin0 Hopen].
    rewrite Hrecv2, Hc1, decide_True by done.
    rewrite Hrecv1, decide_True by done. by rewrite <- app_assoc.
  - intros ws Hout.
    rewrite Hrecv2, decide_False by tauto.
    rewrite Hrecv1, decide_False; [done|]. rewrite Hreg1 in Hout. tauto.
Qed.

Lemma consecutive_broadcasts_in_order_witness :
  received (transport (broadcast_message sample_dumps device_connected
                         (broadcast_message sample_dumps tag_removed sample_hub3)))
    3%positive
  = ["tag_removed"; "device_connected"].
Proof.
  destruct (consecutive_broadcasts_in_order sample_dumps tag_removed device_connected
              sample_hub3) as (_ & _ & _ & Hgot & _).
  apply (Hgot 3%positive). vm_compute. set_solver.
Defined.

(** X16.  A client that joins over a working connection gets the
    initial state as its next frame and the broadcasts that follow after
    it; joining sends nothing to the clients that were registered, and
    leaves them registered. *)
Theorem joined_client_gets_initial_state_first
    (json_dumps : Message → string) (now : spec_float) (d : Display)
    (printers : gmap string bool)
    (websocket : WebSocket) (message : Message) (hub : Hub) :
  websocket ∉ closed (transport hub) →
  let h1 := websocket_endpoint_open json_dumps now d printers websocket hub in
  let h2 := broadcast_message json_dumps message h1 in
  received (transport h2) websocket
    = received (transport hub) websocket
      ++ [json_dumps (initial_state (is_display_connected now d)
                        (_device_update_available d) printers);
          json_dumps message]
  ∧ websocket ∈ websocket_clients h2
  ∧ (∀ other, other ≠ websocket →
       received (transport h1) other = received (transport hub) other
       ∧ (other ∈ websocket_clients h1 ↔ other ∈ websocket_clients hub)).
Proof.
  intros Hopen h1 h2.
  destruct (send_text_open websocket
              (json_dumps (initial_state (is_display_connected now d)
                             (_device_update_available d) printers))
              (transport hub) Hopen) as (net' & Hsend & Hclosed & Hrecv).
  assert (Hh1 : h1 = {| websocket_clients := {[websocket]} ∪ websocket_clients hub;
                        transport := net' |}).
  { subst h1. unfold websocket_endpoint_open. by rewrite Hsend. }
  destruct (broadcast_message_spec json_dumps message h1) as (_ & Hreg2 & Hrecv2).
  fold h2 in Hreg2, Hrecv2.
  assert (Hin1 : websocket ∈ websocket_clients h1) by (rewrite Hh1; set_solver).
  assert (Hopen1 : websocket ∉ closed (transport h1)) by (rewrite Hh1; simpl; by rewrite Hclosed).
  split; [|split].
  - rewrite Hrecv2, decide_True by done. rewrite Hh1. simpl.
    rewrite Hrecv, decide_True by done. by rewrite <- app_assoc.
  - by apply Hreg2.
  - intros other Hne. rewrite Hh1. simpl. split.
    + rewrite Hrecv. by rewrite decide_False.
    + set_solver.
Qed.

Lemma joined_client_gets_initial_state_first_witness :
  received (transport
              (broadcast_message sample_dumps tag_removed
                 (websocket_endpoint_open sample_dumps FLOAT_100 display_init ∅
                    4%positive sample_hub3))) 4%positive
  = ["initial_state"; "tag_removed"].
Proof.
  destruct (joined_client_gets_initial_state_first sample_dumps FLOAT_100 display_init ∅
              4%positive tag_removed sample_hub3) as (Hframes & _).
  - vm_compute. set_solver.
  - exact Hframes.
Defined.

(** X17.  When the handler of a client ends, the client is removed from
    the registry and only it; the connections are not touched; running the
    clean-up twice is the same as once; and a broadcast that follows
    delivers nothing to that client. *)
Theorem websocket_finally_unregisters
    (json_dumps : Message → string) (websocket : WebSocket) (message : Message)
    (hub : Hub) :
  let h1 := websocket_endpoint_finally websocket hub in
  websocket_clients h1 = websocket_clients hub ∖ {[websocket]}
  ∧ transport h1 = transport hub
  ∧ websocket_endpoint_finally websocket h1 = h1
  ∧ received (transport (broadcast_message json_dumps message h1)) websocket
    = received (transport hub) websocket
  ∧ (∀ other, other ≠ websocket →
       (other ∈ websocket_clients h1 ↔ other ∈ websocket_clients hub)).
Proof.
  intros h1. split; [done|]. split; [done|]. split; [|split].
  - subst h1. unfold websocket_endpoint_finally. simpl. f_equal. set_solver.
  - destruct (broadcast_message_spec json_dumps message h1) as (_ & _ & Hrecv).
    rewrite Hrecv. rewrite decide_False; [done|]. subst h1. simpl. set_solver.
  - intros other Hne. simpl. set_solver.
Qed.

Lemma websocket_finally_unregisters_witness :
  2%positive ∈ websocket_clients (websocket_endpoint_finally 1%positive sample_hub3)
  ∧ 1%positive ∉ websocket_clients (websocket_endpoint_finally 1%positive sample_hub3).
Proof.
  destruct (websocket_finally_unregisters sample_dumps 1%positive tag_removed sample_hub3)
    as (Hreg & _ & _ & _ & Hother).
  split.
  - apply (Hother 2%positive); [discriminate|]. vm_compute. set_solver.
  - rewrite Hreg. set_solver.
Defined.

(* ===================================================================== *)
(** * Further properties of the printer callbacks *)
(* ===================================================================== *)

Lemma on_state_update_settings serial state prev_state t :
  _on_usage_logged (on_state_update serial state prev_state t).1 = _on_usage_logged t
  ∧ _loop (on_state_update serial state prev_state t).1 = _loop t.
Proof.
  rewrite on_state_update_cases.
  repeat case_decide; try done; by rewrite on_print_end_tracker.
Qed.

Lemma on_state_update_other serial state prev_state t other :
  other ≠ serial →
  _sessions (on_state_update serial state prev_state t).1 !! other = _sessions t !! other.
Proof.
  intros Hne. rewrite on_state_update_cases.
  repeat case_decide;
    first [ by apply on_print_start_other | by apply on_print_end_other | done ].
Qed.

(** X18.  Every state update of a device caches the snapshot as the
    previous one of that device and, when a loop is running in the calling
    thread, schedules the broadcast of the snapshot after the effects of
    the tracker; without a running loop the tracker still runs and only
    the broadcast is skipped.  The update leaves the cached snapshots and
    the sessions of all other devices, and the callback and loop of the
    tracker, unchanged. *)
Theorem state_update_caches_and_broadcasts
    (running_loop : bool) (serial : string) (state : PrinterState) (app : App) :
  let r := on_printer_state_update running_loop serial state app in
  let tracked := on_state_update serial state (_previous_states app !! serial)
                   (usage_tracker app) in
  _previous_states r.1 !! serial = Some state
  ∧ usage_tracker r.1 = tracked.1
  ∧ r.2 = tracked.2 ++ (if running_loop
                        then [create_task_broadcast (printer_state serial state)] else [])
  ∧ (on_printer_state_update false serial state app).1
    = (on_printer_state_update true serial state app).1
  ∧ (∀ other, other ≠ serial →
       _previous_states r.1 !! other = _previous_states app !! other
       ∧ _sessions (usage_tracker r.1) !! other = _sessions (usage_tracker app) !! other)
  ∧ _on_usage_logged (usage_tracker r.1) = _on_usage_logged (usage_tracker app)
  ∧ _loop (usage_tracker r.1) = _loop (usage_tracker app).
Proof.
  intros r tracked. subst r tracked.
  rewrite !on_printer_state_update_unfold. cbv zeta. cbn [fst snd _previous_states usage_tracker].
  split; [apply lookup_insert_eq|]. split; [done|]. split; [done|]. split; [done|].
  split; [|apply on_state_update_settings].
  intros other Hne. split; [by rewrite lookup_insert_ne|].
  by apply on_state_update_other.
Qed.

Lemma state_update_caches_and_broadcasts_witness :
  _sessions (usage_tracker
               (on_printer_state_update false "P2" sample_end_state
                  {| _previous_states := {["P2" := sample_state "RUNNING" [] None]};
                     usage_tracker := sample_tracker sample_baseline |}).1) !! "P1"
  = Some (sample_session sample_baseline).
Proof.
  destruct (state_update_caches_and_broadcasts false "P2" sample_end_state
              {| _previous_states := {["P2" := sample_state "RUNNING" [] None]};
                 usage_tracker := sample_tracker sample_baseline |})
    as (_ & _ & _ & _ & Hother & _).
  destruct (Hother "P1") as [_ ->]; [discriminate|]. reflexivity.
Defined.

Lemma replay_updates_snoc running_loop serial states state app :
  replay_updates running_loop serial (states ++ [state]) app
  = (on_printer_state_update running_loop serial state
       (replay_updates running_loop serial states app)).1.
Proof. unfold replay_updates. by rewrite foldl_app. Qed.

(** X19.  A run of state updates of one device ends with the last
    snapshot of the run cached as the previous one of that device (the
    cache is as before when the run is empty), and changes neither the
    cached snapshot nor the session of any other device; the trackers
    reached with and without a running loop are the same. *)
Theorem replay_updates_isolated
    (running_loop : bool) (serial : string) (states : list PrinterState) (app : App) :
  let final := replay_updates running_loop serial states app in
  _previous_states final !! serial
    = match last states with
      | Some state => Some state
      | None => _previous_states app !! serial
      end
  ∧ (∀ other, other ≠ serial →
       _previous_states final !! other = _previous_states app !! other
       ∧ _sessions (usage_tracker final) !! other
         = _sessions (usage_tracker app) !! other)
  ∧ replay_updates false serial states app = replay_updates true serial states app.
Proof.
  induction states as [|state states IH] using rev_ind; [done|].
  rewrite !replay_updates_snoc. rewrite last_snoc.
  destruct IH as (_ & IHother & IHloop). cbv zeta.
  rewrite !on_printer_state_update_unfold. cbv zeta.
  cbn [fst _previous_states usage_tracker].
  split; [apply lookup_insert_eq|]. split.
  - intros other Hne. destruct (IHother other Hne) as [Hp Hs].
    rewrite lookup_insert_ne by done. split; [done|].
    by rewrite on_state_update_other.
  - by rewrite IHloop.
Qed.

Lemma replay_updates_isolated_witness :
  _sessions (usage_tracker
               (replay_updates false "P2"
                  [sample_state "RUNNING" [] None; sample_end_state]
                  {| _previous_states := ∅;
                     usage_tracker := sample_tracker sample_baseline |})) !! "P1"
  = Some (sample_session sample_baseline).
Proof.
  destruct (replay_updates_isolated false "P2"
              [sample_state "RUNNING" [] None; sample_end_state]
              {| _previous_states := ∅;
                 usage_tracker := sample_tracker sample_baseline |})
    as (_ & Hother & _).
  destruct (Hother "P1") as [_ ->]; [discriminate|]. reflexivity.
Defined.

(** X20.  A reconnect in the middle of a print restarts the session.
    After [on_printer_disconnect] the first running snapshot of the device
    is taken for a start, although the snapshot before the disconnect was
    a running one too: the session of the device is replaced by one with
    the readings of that snapshot, so what was used before the reconnect
    is no longer counted.  [on_printer_connect] changes nothing, and both
    callbacks schedule their broadcast only when a loop is running. *)
Theorem reconnect_restarts_running_print
    (running_loop : bool) (serial : string) (state : PrinterState) (app : App) :
  gcode_state state = Some "RUNNING" →
  let reconnected :=
    (on_printer_connect running_loop serial
       (on_printer_disconnect running_loop serial app).1).1 in
  let r := on_printer_state_update running_loop serial state reconnected in
  (∃ session,
     _sessions (usage_tracker r.1) !! serial = Some session
     ∧ tray_remain_start session = capture_remain state)
  ∧ (on_printer_connect running_loop serial app).1 = app
  ∧ (on_printer_connect running_loop serial app).2
    = (if running_loop then [create_task_broadcast (printer_connected serial)] else [])
  ∧ (on_printer_disconnect running_loop serial app).2
    = (if running_loop then [create_task_broadcast (printer_disconnected serial)] else []).
Proof.
  intros Hrun reconnected r. split; [|done].
  subst r reconnected. rewrite on_printer_state_update_unfold. simpl.
  rewrite lookup_delete_eq.
  rewrite on_state_update_start by (split; [done|discriminate]).
  eexists. split; [apply lookup_insert_eq|done].
Qed.

Lemma reconnect_restarts_running_print_witness :
  ∃ session,
    _sessions (usage_tracker
      (on_printer_state_update false "P1"
         (sample_state "RUNNING" [{| unit_id := 0; trays := [sample_tray 0 40] |}] None)
         (on_printer_connect false "P1"
            (on_printer_disconnect false "P1" sample_app).1).1).1) !! "P1" = Some session
    ∧ tray_remain_start session !! (0, 0) = Some 40.
Proof.
  destruct (reconnect_restarts_running_print false "P1"
              (sample_state "RUNNING" [{| unit_id := 0; trays := [sample_tray 0 40] |}] None)
              sample_app eq_refl) as ((session & Hs & Hb) & _).
  exists session. split; [exact Hs|]. rewrite Hb. reflexivity.
Defined.
